(** * YAML document validation against a JSON schema

    Shallow embedding of the document node model, the validation result
    accumulator and the schema validation engine of the YAML parser module
    ([ASTNode] and its subclasses, [ValidationResult]), with the properties
    of the specification stated and settled against it.

    Conventions of the embedding:
    - a call returns [Ok] or throws ([Throw]); the methods of the engine
      thread the state they share: the result and the trace they are
      handed, and the [type] fields of the Number nodes, the one part of
      the tree [validate] writes;
    - offsets and lengths are integers; other numbers are exact rationals
      or [NaN]; the length of a string is its number of characters;
    - an object used as a map ([seenKeys]) is a finite map from its own
      keys, the keyword maps of a schema are lists in enumeration order;
      the names a plain object inherits, for which this reading is not
      exact, are excluded where a statement depends on them;
    - the items of an array and the properties of an object are nodes, and
      the schemas nested in a schema are schemas: an entry left
      [undefined] or [null] is not represented;
    - regular expressions are a parameter of the engine ([RegExp]);
    - messages are kept as the key and arguments given to [localize]. *)

From Stdlib Require Import ZArith QArith Lia Bool.
From stdpp Require Import base option list strings gmap.

#[local] Set Warnings "-register-all".

Open Scope Z_scope.

(** ** Values of the host language *)

(** Outcome of a call: it returns, or an exception escapes it. *)
Inductive Exception := TypeError | SyntaxError.

Inductive Result (A : Type) :=
| Ok (a : A)
| Throw (e : Exception).
Arguments Ok {A} a.
Arguments Throw {A} e.

Definition bind {A B} (r : Result A) (k : A -> Result B) : Result B :=
  match r with
  | Ok a => k a
  | Throw e => Throw e
  end.

Notation "'let!' x ':=' e 'in' k" := (bind e (fun x => k))
  (at level 10, x pattern, e at level 100, k at level 200).

(** [l.forEach(f)] where the callback updates the state [s] it closes over. *)
Fixpoint forEach {A St} (f : A -> St -> Result St) (l : list A) (s : St) : Result St :=
  match l with
  | [] => Ok s
  | x :: rest => let! s' := f x s in forEach f rest s'
  end.

(** [l.forEach((x, index) => ...)], the index counted from [i]. *)
Fixpoint forEachIndex {A St} (f : A -> nat -> St -> Result St) (i : nat) (l : list A)
  (s : St) : Result St :=
  match l with
  | [] => Ok s
  | x :: rest => let! s' := f x i s in forEachIndex f (S i) rest s'
  end.

(** A number is a double; finite values are idealised as exact rationals,
    [NaN] is kept because the constructor of a Number node assigns it. *)
Inductive JSNumber :=
| NaN
| Fin (q : Q).

Definition ofZ (z : Z) : JSNumber := Fin (inject_Z z).

(** Truthiness of a number: neither [0] nor [NaN]. *)
Definition truthyNumber (n : JSNumber) : bool :=
  match n with
  | NaN => false
  | Fin q => negb (Qeq_bool q 0)
  end.

Definition numEq (a b : JSNumber) : bool :=
  match a, b with
  | Fin x, Fin y => Qeq_bool x y
  | _, _ => false
  end.

Definition numLt (a b : JSNumber) : bool :=
  match a, b with
  | Fin x, Fin y => Qle_bool x y && negb (Qeq_bool x y)
  | _, _ => false
  end.

Definition numLe (a b : JSNumber) : bool :=
  match a, b with
  | Fin x, Fin y => Qle_bool x y
  | _, _ => false
  end.

(** [a % b]: the remainder has the sign of the dividend. *)
Definition numRem (a b : JSNumber) : JSNumber :=
  match a, b with
  | Fin x, Fin y =>
      if Qeq_bool y 0 then NaN
      else let d := (x / y)%Q in
           Fin (x - y * inject_Z (Z.quot (Qnum d) (Zpos (Qden d))))%Q
  | _, _ => NaN
  end.

(** Plain values, as [getValue] produces them and as [enum] lists them. *)
Inductive JSValue :=
| VUndefined
| VNull
| VBool (b : bool)
| VNumber (n : JSNumber)
| VString (s : string)
| VArray (elems : list JSValue)
| VObject (fields : list (string * JSValue)).

Definition truthy (v : JSValue) : bool :=
  match v with
  | VUndefined | VNull => false
  | VBool b => b
  | VNumber n => truthyNumber n
  | VString s => negb (String.eqb s "")
  | VArray _ | VObject _ => true
  end.

(** [a === b] where [a] is an array or object freshly built by [getValue]:
    it is identical to no other value. *)
Definition strictEquals (a b : JSValue) : bool :=
  match a, b with
  | VUndefined, VUndefined => true
  | VNull, VNull => true
  | VBool x, VBool y => Bool.eqb x y
  | VNumber x, VNumber y => numEq x y
  | VString x, VString y => String.eqb x y
  | _, _ => false
  end.

(** [l.indexOf(v) === -1] *)
Definition notIndexOf (l : list JSValue) (v : JSValue) : bool :=
  negb (existsb (strictEquals v) l).

(** ** Ranges and diagnostics *)

Record IRange := mkRange { range_start : Z; range_end : Z }.

(** Arguments substituted into a localized message. *)
Inductive MessageArg :=
| ArgString (s : string)
| ArgStrings (l : list string)
| ArgNumber (n : option JSNumber)
| ArgCount (n : nat)
| ArgValues (l : list JSValue)
| ArgOther.

(** A message is the schema's own [errorMessage] or a call of [localize]
    with a key and its arguments. *)
Inductive Message :=
| Custom (text : string)
| localize (key : string) (args : list MessageArg).

Record IError := { location : IRange; message : Message }.

(** ** ValidationResult *)

Module ValidationResult.

(** The two counters are counts: they start at 0 and are only incremented
    or added to each other. *)
Record t := mk {
  errors : list IError;
  warnings : list IError;
  propertiesMatches : N;
  propertiesValueMatches : N;
  enumValueMatch : bool
}.

Definition new : t := mk [] [] 0%N 0%N false.

(** [!!this.errors.length || !!this.warnings.length] *)
Definition hasErrors (this : t) : bool :=
  negb (length (errors this) =? 0)%nat || negb (length (warnings this) =? 0)%nat.

Definition merge (this validationResult : t) : t :=
  mk (errors this ++ errors validationResult)
     (warnings this ++ warnings validationResult)
     (propertiesMatches this) (propertiesValueMatches this) (enumValueMatch this).

Definition mergeAll (this : t) (validationResults : list t) : t :=
  fold_left merge validationResults this.

(** The argument is a result of its own: every caller passes one it has
    just created. *)
Definition mergePropertyMatch (this propertyValidationResult : t) : t :=
  let this := merge this propertyValidationResult in
  let this := mk (errors this) (warnings this) (propertiesMatches this + 1)%N
                 (propertiesValueMatches this) (enumValueMatch this) in
  if enumValueMatch propertyValidationResult
     || negb (hasErrors propertyValidationResult)
        && negb (propertiesMatches propertyValidationResult =? 0)%N
  then mk (errors this) (warnings this) (propertiesMatches this)
          (propertiesValueMatches this + 1)%N (enumValueMatch this)
  else this.

Definition compare (this other : t) : Z :=
  let hasErrors_ := hasErrors this in
  if negb (Bool.eqb hasErrors_ (hasErrors other)) then
    if hasErrors_ then -1 else 1
  else if negb (Bool.eqb (enumValueMatch this) (enumValueMatch other)) then
    if enumValueMatch other then -1 else 1
  else if negb (propertiesValueMatches this =? propertiesValueMatches other)%N then
    Z.of_N (propertiesValueMatches this) - Z.of_N (propertiesValueMatches other)
  else
    Z.of_N (propertiesMatches this) - Z.of_N (propertiesMatches other).

(** [this.warnings.push(w)] *)
Definition pushWarning (this : t) (w : IError) : t :=
  mk (errors this) (warnings this ++ [w]) (propertiesMatches this)
     (propertiesValueMatches this) (enumValueMatch this).

(** [this.propertiesMatches += n] *)
Definition addPropertiesMatches (this : t) (n : N) : t :=
  mk (errors this) (warnings this) (propertiesMatches this + n)%N
     (propertiesValueMatches this) (enumValueMatch this).

(** [this.propertiesValueMatches += n] *)
Definition addPropertiesValueMatches (this : t) (n : N) : t :=
  mk (errors this) (warnings this) (propertiesMatches this)
     (propertiesValueMatches this + n)%N (enumValueMatch this).

(** [this.enumValueMatch = true] *)
Definition setEnumValueMatch (this : t) : t :=
  mk (errors this) (warnings this) (propertiesMatches this)
     (propertiesValueMatches this) true.

End ValidationResult.

Abbreviation VR := ValidationResult.t.

(** ** Document node model *)

(** The [parent] back-reference. Validation reads only [parent.key] through
    it, so the reference is kept as the range of that key: [ParentNode None]
    is a parent without a [key] (an array, an object, a property whose key
    is unset), [NoParent] is [null]. *)
Inductive ParentRef :=
| NoParent
| ParentNode (key : option IRange).

#[global] Instance IRange_eq_dec : EqDecision IRange.
Proof. solve_decision. Defined.

#[global] Instance ParentRef_eq_dec : EqDecision ParentRef.
Proof. solve_decision. Defined.

(** Fields declared by the base class. The [type] field is fixed by the
    constructor of each subclass, see [nodeType] below. *)
Record NodeFields := mkFields {
  f_name : option string;
  f_start : Z;
  f_end : Z;
  f_parent : ParentRef
}.

Record StringFields := mkString {
  s_fields : NodeFields;
  isKey : bool;
  s_value : string
}.

Record PropertyFields (A : Type) := mkProperty {
  p_fields : NodeFields;
  key : option StringFields;
  value : option A;
  colonOffset : Z
}.
Arguments mkProperty {A}.
Arguments p_fields {A}.
Arguments key {A}.
Arguments value {A}.
Arguments colonOffset {A}.

(** A Number node is the one node whose [type] field is written during
    validation; [ref] is the identity of the node, the address of that
    field in the [TypeStore]. *)
Inductive ASTNode :=
| NullASTNode (f : NodeFields)
| BooleanASTNode (f : NodeFields) (v : bool)
| NumberASTNode (f : NodeFields) (ref : nat) (isInteger : bool) (v : JSNumber)
| StringASTNode (s : StringFields)
| ArrayASTNode (f : NodeFields) (items : list ASTNode)
| PropertyASTNode (p : PropertyFields ASTNode)
| ObjectASTNode (f : NodeFields) (properties : list (PropertyFields ASTNode)).

Abbreviation Property := (PropertyFields ASTNode).

Definition fields (this : ASTNode) : NodeFields :=
  match this with
  | NullASTNode f | BooleanASTNode f _ | NumberASTNode f _ _ _
  | ArrayASTNode f _ | ObjectASTNode f _ => f
  | StringASTNode s => s_fields s
  | PropertyASTNode p => p_fields p
  end.

Definition name (this : ASTNode) : option string := f_name (fields this).
Definition start (this : ASTNode) : Z := f_start (fields this).
Definition end_ (this : ASTNode) : Z := f_end (fields this).
Definition parent (this : ASTNode) : ParentRef := f_parent (fields this).

(** The Number nodes whose [type] field currently reads ['integer']; the
    field of every other Number node reads ['number'], the value its
    constructor assigns. *)
Abbreviation TypeStore := (gset nat).

(** [this.type] *)
Definition nodeType (types : TypeStore) (this : ASTNode) : string :=
  match this with
  | NullASTNode _ => "null"
  | BooleanASTNode _ _ => "boolean"
  | NumberASTNode _ ref _ _ => if decide (ref ∈ types) then "integer" else "number"
  | StringASTNode _ => "string"
  | ArrayASTNode _ _ => "array"
  | PropertyASTNode _ => "property"
  | ObjectASTNode _ _ => "object"
  end%string.

(** [getChildNodes()]; an entry is [None] where the array holds
    [undefined] (the key of a property before [setKey]). *)
Definition getChildNodes (this : ASTNode) : list (option ASTNode) :=
  match this with
  | ArrayASTNode _ items => Some <$> items
  | ObjectASTNode _ properties => (fun p => Some (PropertyASTNode p)) <$> properties
  | PropertyASTNode p =>
      match value p with
      | Some v => [StringASTNode <$> key p; Some v]
      | None => [StringASTNode <$> key p]
      end
  | _ => []
  end.

(** [value[k] = v] on a plain object. *)
Fixpoint assign (k : string) (v : JSValue) (obj : list (string * JSValue))
  : list (string * JSValue) :=
  match obj with
  | [] => [(k, v)]
  | (k', v') :: rest =>
      if String.eqb k' k then (k, v) :: rest else (k', v') :: assign k v rest
  end.

Fixpoint getValue (this : ASTNode) : Result JSValue :=
  match this with
  | NullASTNode _ => Ok VNull
  | BooleanASTNode _ v => Ok (VBool v)
  | NumberASTNode _ _ _ v => Ok (VNumber v)
  | StringASTNode s => Ok (VString (s_value s))
  | ArrayASTNode _ items =>
      let! vs := forEach (fun item vs => let! v := getValue item in Ok (vs ++ [v])) items [] in
      Ok (VArray vs)
  | PropertyASTNode _ => Ok VUndefined
  | ObjectASTNode _ properties =>
      let! obj :=
        forEach (fun (p : Property) obj =>
                   match value p with
                   | None => Ok obj
                   | Some n =>
                       let! v := getValue n in
                       if truthy v then
                         match key p with
                         | Some k => Ok (assign (s_value k) v obj)
                         | None => Throw TypeError
                         end
                       else Ok obj
                   end) properties [] in
      Ok (VObject obj)
  end.

Definition contains (this : ASTNode) (offset : Z) (includeRightBound : bool) : bool :=
  (start this <=? offset) && (offset <? end_ this)
  || includeRightBound && (offset =? end_ this).

(** The loop of [findNode] over the children of [node]. *)
Fixpoint findInChildren (findNode : ASTNode -> Result (option ASTNode)) (offset : Z)
  (children : list (option ASTNode)) (node : ASTNode) : Result (option ASTNode) :=
  match children with
  | [] => Ok (Some node)
  | None :: _ => Throw TypeError
  | Some child :: rest =>
      if start child <=? offset then
        let! item := findNode child in
        match item with
        | Some found => Ok (Some found)
        | None => findInChildren findNode offset rest node
        end
      else Ok (Some node)
  end.

(** [findNode], by recursion on the tree; the children of an object are
    its properties, those of a property its key and its value.
    [findNode_unfold] below shows it to be the loop over [getChildNodes]. *)
Fixpoint findNode (offset : Z) (node : ASTNode) {struct node} : Result (option ASTNode) :=
  let inside (f : NodeFields) := (f_start f <=? offset) && (offset <? f_end f) in
  let findLeaf (leaf : ASTNode) :=
    if inside (fields leaf) then Ok (Some leaf) else Ok None in
  let findProperty (p : Property) :=
    if inside (p_fields p) then
      match key p with
      | None => Throw TypeError
      | Some k =>
          let rest :=
            match value p with
            | Some v =>
                if start v <=? offset then
                  let! item := findNode offset v in
                  match item with
                  | Some found => Ok (Some found)
                  | None => Ok (Some (PropertyASTNode p))
                  end
                else Ok (Some (PropertyASTNode p))
            | None => Ok (Some (PropertyASTNode p))
            end in
          if f_start (s_fields k) <=? offset then
            let! item := findLeaf (StringASTNode k) in
            match item with
            | Some found => Ok (Some found)
            | None => rest
            end
          else Ok (Some (PropertyASTNode p))
      end
    else Ok None in
  match node with
  | ArrayASTNode f items =>
      if inside f then
        (fix loop (children : list ASTNode) :=
           match children with
           | [] => Ok (Some node)
           | child :: rest =>
               if start child <=? offset then
                 let! item := findNode offset child in
                 match item with
                 | Some found => Ok (Some found)
                 | None => loop rest
                 end
               else Ok (Some node)
           end) items
      else Ok None
  | ObjectASTNode f properties =>
      if inside f then
        (fix loop (children : list Property) :=
           match children with
           | [] => Ok (Some node)
           | child :: rest =>
               if f_start (p_fields child) <=? offset then
                 let! item := findProperty child in
                 match item with
                 | Some found => Ok (Some found)
                 | None => loop rest
                 end
               else Ok (Some node)
           end) properties
      else Ok None
  | PropertyASTNode p => findProperty p
  | _ => findLeaf node
  end.

Definition getNodeFromOffset (this : ASTNode) (offset : Z) : Result (option ASTNode) :=
  findNode offset this.

(** *** Builder operations *)

(** An argument of reference type: [null], [undefined] or an object. *)
Inductive Operand (A : Type) :=
| Null
| Undefined
| Obj (a : A).
Arguments Null {A}.
Arguments Undefined {A}.
Arguments Obj {A} a.

(** The reference a field holds after [field = operand]; [null] and
    [undefined] read alike in every later test of the field. *)
Definition stored {A} (x : Operand A) : option A :=
  match x with
  | Obj a => Some a
  | _ => None
  end.

(** [ArrayASTNode.addItem], on the [items] field of the array. *)
Definition addItem (items : list ASTNode) (item : Operand ASTNode) : list ASTNode * bool :=
  match item with
  | Obj a => (items ++ [a], true)
  | _ => (items, false)
  end.

(** [ObjectASTNode.addProperty], on the [properties] field of the object. *)
Definition addProperty (properties : list Property) (node : Operand Property)
  : list Property * bool :=
  match node with
  | Obj a => (properties ++ [a], true)
  | _ => (properties, false)
  end.

Definition rangeOf (f : NodeFields) : IRange := mkRange (f_start f) (f_end f).

(** [PropertyASTNode.setKey] *)
Definition setKey (this : Property) (k : Operand StringFields) : Property * bool :=
  let this' :=
    match k with
    | Obj a =>
        let f := s_fields a in
        let a' := mkString (mkFields (Some (s_value a)) (f_start f) (f_end f)
                                     (ParentNode (Some (rangeOf f))))
                           (isKey a) (s_value a) in
        mkProperty (mkFields (f_name (p_fields this)) (f_start f) (f_end f)
                             (f_parent (p_fields this)))
                   (Some a') (value this) (colonOffset this)
    | _ => mkProperty (p_fields this) None (value this) (colonOffset this)
    end in
  (this', match k with Null => false | _ => true end).

(** [node.name = n] *)
Definition setName (n : option string) (node : ASTNode) : ASTNode :=
  let rename f := mkFields n (f_start f) (f_end f) (f_parent f) in
  match node with
  | NullASTNode f => NullASTNode (rename f)
  | BooleanASTNode f v => BooleanASTNode (rename f) v
  | NumberASTNode f r i v => NumberASTNode (rename f) r i v
  | StringASTNode s => StringASTNode (mkString (rename (s_fields s)) (isKey s) (s_value s))
  | ArrayASTNode f items => ArrayASTNode (rename f) items
  | PropertyASTNode p =>
      PropertyASTNode (mkProperty (rename (p_fields p)) (key p) (value p) (colonOffset p))
  | ObjectASTNode f properties => ObjectASTNode (rename f) properties
  end.

(** [PropertyASTNode.setValue]; reading [this.key.name] throws when the key
    is unset. *)
Definition setValue (this : Property) (v : Operand ASTNode) : Result (Property * bool) :=
  match v with
  | Obj a =>
      match key this with
      | Some k =>
          Ok (mkProperty (p_fields this) (key this)
                         (Some (setName (f_name (s_fields k)) a)) (colonOffset this),
              true)
      | None => Throw TypeError
      end
  | Null => Ok (mkProperty (p_fields this) (key this) None (colonOffset this), false)
  | Undefined => Ok (mkProperty (p_fields this) (key this) None (colonOffset this), true)
  end.

(** ** Schemas *)

Module JsonSchema.

(** The [type] keyword as the engine tells its values apart: a string,
    an array of strings, or any other value; [TypeOther] is a truthy value
    that is neither (a number, an object), falsy values read as absent. *)
Inductive SchemaType :=
| TypeAbsent
| TypeString (s : string)
| TypeArray (l : list string)
| TypeOther.

Inductive Items (A : Type) :=
| ItemsAbsent
| ItemsArray (subSchemas : list A)
| ItemsSchema (s : A).
Arguments ItemsAbsent {A}.
Arguments ItemsArray {A}.
Arguments ItemsSchema {A}.

(** [additionalProperties]: absent, the literal [false], or a schema
    (the literal [true] constrains like the empty schema). *)
Inductive Additional (A : Type) :=
| AdditionalAbsent
| AdditionalFalse
| AdditionalSchema (s : A).
Arguments AdditionalAbsent {A}.
Arguments AdditionalFalse {A}.
Arguments AdditionalSchema {A}.

Inductive Dependency (A : Type) :=
| DependencyNone
| DependencyArray (valueAsArray : list string)
| DependencySchema (valueAsSchema : A).
Arguments DependencyNone {A}.
Arguments DependencyArray {A}.
Arguments DependencySchema {A}.

(** A schema with its references resolved. Keyword maps ([properties],
    [patternProperties], [dependencies]) list their entries in the order
    [Object.keys] enumerates them. *)
Inductive IJSONSchema := mk {
  type : SchemaType;
  errorMessage : option string;
  allOf : option (list IJSONSchema);
  not : option IJSONSchema;
  anyOf : option (list IJSONSchema);
  oneOf : option (list IJSONSchema);
  enum : option (list JSValue);
  multipleOf : option JSNumber;
  minimum : option JSNumber;
  exclusiveMinimum : bool;
  maximum : option JSNumber;
  exclusiveMaximum : bool;
  minLength : option JSNumber;
  maxLength : option JSNumber;
  pattern : option string;
  items : Items IJSONSchema;
  additionalItems : option bool;
  minItems : option JSNumber;
  maxItems : option JSNumber;
  uniqueItems : option bool;
  required : option (list string);
  properties : option (list (string * IJSONSchema));
  patternProperties : option (list (string * IJSONSchema));
  additionalProperties : Additional IJSONSchema;
  maxProperties : option JSNumber;
  minProperties : option JSNumber;
  dependencies : option (list (string * Dependency IJSONSchema))
}.

(** The schema [{}]. *)
Definition empty : IJSONSchema :=
  mk TypeAbsent None None None None None None None None false None false None None None
     ItemsAbsent None None None None None None None AdditionalAbsent None None None.

End JsonSchema.

Abbreviation Schema := JsonSchema.IJSONSchema.

(** An entry of the match trace; [inverted] is [None] until a [not] sets it. *)
Record IApplicableSchema := mkApplicable {
  node : ASTNode;
  inverted : option bool;
  schema : Schema
}.

(** [ms.inverted = !ms.inverted] *)
Definition invert (ms : IApplicableSchema) : IApplicableSchema :=
  mkApplicable (node ms)
               (Some (match inverted ms with Some b => negb b | None => true end))
               (schema ms).

(** What a call of [validate] leaves behind: the [type] fields of the
    Number nodes, the result and the trace it was given. *)
Record State := mkState {
  types : TypeStore;
  result : VR;
  trace : option (list IApplicableSchema)
}.

(** [{ schema, validationResult, matchingSchemas }] in [testAlternatives]. *)
Record BestMatch := mkBest {
  best_schema : Schema;
  best_validationResult : VR;
  best_matchingSchemas : list IApplicableSchema
}.

Definition warning (start_ end__ : Z) (m : Message) : IError :=
  {| location := mkRange start_ end__; message := m |}.

(** [schema.errorMessage || m] *)
Definition orElse (errorMessage : option string) (m : Message) : Message :=
  match errorMessage with
  | Some text => if String.eqb text "" then m else Custom text
  | None => m
  end.

(** [schema.k && k'], for a numeric keyword [k]. *)
Definition whenTruthy (limit : option JSNumber) (test : JSNumber -> bool) : bool :=
  match limit with
  | Some n => truthyNumber n && test n
  | None => false
  end.

Definition lengthOf {A} (l : list A) : JSNumber := ofZ (Z.of_nat (length l)).

(** [values.lastIndexOf(v)], counting positions from [i]; [None] is [-1]. *)
Fixpoint lastIndexOf (values : list JSValue) (i : nat) (v : JSValue) : option nat :=
  match values with
  | [] => None
  | x :: rest =>
      match lastIndexOf rest (S i) v with
      | Some j => Some j
      | None => if strictEquals v x then Some i else None
      end
  end.

(** [values.some((value, index) => index !== values.lastIndexOf(value))];
    an array or object among the values is identical only to itself. *)
Definition duplicates (values : list JSValue) : bool :=
  existsb (fun '(index, v) =>
             match v with
             | VArray _ | VObject _ => false
             | _ => match lastIndexOf values 0 v with
                    | Some j => negb (index =? j)%nat
                    | None => true
                    end
             end)
          (imap (fun index v => (index, v)) values).

(** [seenKeys[k]], falsy when it reads [undefined]. *)
Definition seen (seenKeys : gmap string (option ASTNode)) (k : string) : option ASTNode :=
  mjoin (seenKeys !! k).

(** [propertyProcessed(prop)]: every occurrence leaves the list. *)
Definition propertyProcessed (prop : string) (unprocessedProperties : list string)
  : list string :=
  List.filter (fun k => negb (String.eqb k prop)) unprocessedProperties.

(** ** The validation engine *)

Section Engine.

(** [new RegExp(pattern)]: [None] when the pattern does not compile (the
    constructor throws a [SyntaxError]), otherwise the [test] method of
    the compiled expression. *)
Variable RegExp : string -> option (string -> bool).

(** The type of [validate], as the overriding methods call it on
    sub-schemas: the schema, the receiver, the arguments in source order,
    and the [type] fields on entry. *)
Definition Validate : Type :=
  Schema -> ASTNode -> VR -> option (list IApplicableSchema) -> Z -> TypeStore
  -> Result State.

(** [offset !== -1 && !this.contains(offset)] *)
Definition outside (this : ASTNode) (offset : Z) : bool :=
  negb (offset =? -1) && negb (contains this offset false).

Definition push (this : ASTNode) (m : Message) (st : State) : State :=
  mkState (types st)
          (ValidationResult.pushWarning (result st) (warning (start this) (end_ this) m))
          (trace st).

(** [validationResult.mergePropertyMatch(r)] after a child call that
    returned in state [sub] with its own result. *)
Definition mergeChild (st sub : State) : State :=
  mkState (types sub) (ValidationResult.mergePropertyMatch (result st) (result sub))
          (trace sub).

(** [testAlternatives(alternatives, maxOneMatch)]; every alternative is
    validated with [offset] left to its default. *)
Definition testAlternatives (validate : Validate) (this : ASTNode)
  (alternatives : list Schema) (maxOneMatch : bool) (st : State)
  : Result (State * nat) :=
  let! (types', matches, bestMatch) :=
    forEach
      (fun subSchema '(types', matches, bestMatch) =>
         let! sub := validate subSchema this ValidationResult.new (Some []) (-1) types' in
         let subValidationResult := result sub in
         let subMatchingSchemas := default [] (trace sub) in
         let matches :=
           if negb (ValidationResult.hasErrors subValidationResult)
           then matches ++ [subSchema] else matches in
         let bestMatch :=
           match bestMatch with
           | None => mkBest subSchema subValidationResult subMatchingSchemas
           | Some best =>
               if negb maxOneMatch
                  && negb (ValidationResult.hasErrors subValidationResult)
                  && negb (ValidationResult.hasErrors (best_validationResult best))
               then
                 mkBest (best_schema best)
                   (ValidationResult.addPropertiesValueMatches
                      (ValidationResult.addPropertiesMatches
                         (best_validationResult best)
                         (ValidationResult.propertiesMatches subValidationResult))
                      (ValidationResult.propertiesValueMatches subValidationResult))
                   (best_matchingSchemas best ++ subMatchingSchemas)
               else
                 let compareResult :=
                   ValidationResult.compare subValidationResult
                                            (best_validationResult best) in
                 if compareResult >? 0 then
                   mkBest subSchema subValidationResult subMatchingSchemas
                 else if compareResult =? 0 then
                   mkBest (best_schema best) (best_validationResult best)
                          (best_matchingSchemas best ++ subMatchingSchemas)
                 else best
           end in
         Ok (types sub, matches, Some bestMatch))
      alternatives (types st, [], None) in
  let validationResult :=
    if (1 <? length matches)%nat && maxOneMatch then
      ValidationResult.pushWarning (result st)
        (warning (start this) (start this + 1) (localize "oneOfWarning" []))
    else result st in
  match bestMatch with
  | Some best =>
      let bestResult := best_validationResult best in
      Ok (mkState types'
            (ValidationResult.addPropertiesValueMatches
               (ValidationResult.addPropertiesMatches
                  (ValidationResult.merge validationResult bestResult)
                  (ValidationResult.propertiesMatches bestResult))
               (ValidationResult.propertiesValueMatches bestResult))
            (match trace st with
             | Some matchingSchemas => Some (matchingSchemas ++ best_matchingSchemas best)
             | None => None
             end),
          length matches)
  | None => Ok (mkState types' validationResult (trace st), length matches)
  end.

(** [ASTNode.validate], the checks shared by every node. *)
Definition ASTNode_validate (validate : Validate) (schema : Schema) (this : ASTNode)
  (validationResult : VR) (matchingSchemas : option (list IApplicableSchema))
  (offset : Z) (types0 : TypeStore) : Result State :=
  let st := mkState types0 validationResult matchingSchemas in
  if outside this offset then Ok st else
  let st :=
    match JsonSchema.type schema with
    | JsonSchema.TypeArray l =>
        if negb (existsb (String.eqb (nodeType types0 this)) l) then
          push this (orElse (JsonSchema.errorMessage schema)
                            (localize "typeArrayMismatchWarning" [ArgStrings l])) st
        else st
    | JsonSchema.TypeString s =>
        if negb (String.eqb s "") && negb (String.eqb (nodeType types0 this) s) then
          push this (orElse (JsonSchema.errorMessage schema)
                            (localize "typeMismatchWarning" [ArgString s])) st
        else st
    | JsonSchema.TypeOther =>
        push this (orElse (JsonSchema.errorMessage schema)
                          (localize "typeMismatchWarning" [ArgOther])) st
    | JsonSchema.TypeAbsent => st
    end in
  let! st :=
    match JsonSchema.allOf schema with
    | Some subSchemas =>
        forEach (fun subSchema st =>
                   validate subSchema this (result st) (trace st) offset (types st))
                subSchemas st
    | None => Ok st
    end in
  let! st :=
    match JsonSchema.not schema with
    | Some subSchema =>
        let! sub := validate subSchema this ValidationResult.new (Some []) offset
                             (types st) in
        let st' := mkState (types sub) (result st) (trace st) in
        let st' :=
          if negb (ValidationResult.hasErrors (result sub)) then
            push this (localize "notSchemaWarning" []) st'
          else st' in
        Ok (mkState (types st') (result st')
              (match trace st' with
               | Some l => Some (l ++ (invert <$> default [] (trace sub)))
               | None => None
               end))
    | None => Ok st
    end in
  let! st :=
    match JsonSchema.anyOf schema with
    | Some alternatives =>
        let! (st', _) := testAlternatives validate this alternatives false st in Ok st'
    | None => Ok st
    end in
  let! st :=
    match JsonSchema.oneOf schema with
    | Some alternatives =>
        let! (st', _) := testAlternatives validate this alternatives true st in Ok st'
    | None => Ok st
    end in
  let! st :=
    match JsonSchema.enum schema with
    | Some values =>
        let! v := getValue this in
        if notIndexOf values v then
          Ok (push this (localize "enumWarning" [ArgValues values]) st)
        else
          Ok (mkState (types st) (ValidationResult.setEnumValueMatch (result st))
                      (trace st))
    | None => Ok st
    end in
  Ok (mkState (types st) (result st)
        (match trace st with
         | Some l => Some (l ++ [mkApplicable this None schema])
         | None => None
         end)).

(** [NumberASTNode.validate] *)
Definition NumberASTNode_validate (validate : Validate) (schema : Schema)
  (this : ASTNode) (ref : nat) (isInteger : bool) (val : JSNumber)
  (validationResult : VR) (matchingSchemas : option (list IApplicableSchema))
  (offset : Z) (types0 : TypeStore) : Result State :=
  if outside this offset then Ok (mkState types0 validationResult matchingSchemas) else
  let typeIsInteger :=
    match JsonSchema.type schema with
    | JsonSchema.TypeString s => String.eqb s "integer"
    | JsonSchema.TypeArray l => existsb (String.eqb "integer") l
    | _ => false
    end in
  let types1 : TypeStore := if typeIsInteger && isInteger then {[ref]} ∪ types0 else types0 in
  let! st := ASTNode_validate validate schema this validationResult matchingSchemas
                              offset types1 in
  let st := mkState (types st ∖ {[ref]}) (result st) (trace st) in
  let st :=
    match JsonSchema.multipleOf schema with
    | Some m =>
        if negb (numEq (numRem val m) (ofZ 0)) then
          push this (localize "multipleOfWarning" [ArgNumber (Some m)]) st
        else st
    | None => st
    end in
  let st :=
    match JsonSchema.minimum schema with
    | Some m =>
        let st :=
          if JsonSchema.exclusiveMinimum schema && numLe val m then
            push this (localize "exclusiveMinimumWarning" [ArgNumber (Some m)]) st
          else st in
        if negb (JsonSchema.exclusiveMinimum schema) && numLt val m then
          push this (localize "minimumWarning" [ArgNumber (Some m)]) st
        else st
    | None => st
    end in
  let st :=
    match JsonSchema.maximum schema with
    | Some m =>
        let st :=
          if JsonSchema.exclusiveMaximum schema && numLe m val then
            push this (localize "exclusiveMaximumWarning" [ArgNumber (Some m)]) st
          else st in
        if negb (JsonSchema.exclusiveMaximum schema) && numLt m val then
          push this (localize "maximumWarning" [ArgNumber (Some m)]) st
        else st
    | None => st
    end in
  Ok st.

(** [StringASTNode.validate] *)
Definition StringASTNode_validate (validate : Validate) (schema : Schema)
  (this : ASTNode) (val : string)
  (validationResult : VR) (matchingSchemas : option (list IApplicableSchema))
  (offset : Z) (types0 : TypeStore) : Result State :=
  if outside this offset then Ok (mkState types0 validationResult matchingSchemas) else
  let! st := ASTNode_validate validate schema this validationResult matchingSchemas
                              offset types0 in
  let len := ofZ (Z.of_nat (String.length val)) in
  let st :=
    if whenTruthy (JsonSchema.minLength schema) (fun n => numLt len n) then
      push this (localize "minLengthWarning" [ArgNumber (JsonSchema.minLength schema)]) st
    else st in
  let st :=
    if whenTruthy (JsonSchema.maxLength schema) (fun n => numLt n len) then
      push this (localize "maxLengthWarning" [ArgNumber (JsonSchema.maxLength schema)]) st
    else st in
  match JsonSchema.pattern schema with
  | Some p =>
      if String.eqb p "" then Ok st else
      match RegExp p with
      | None => Throw SyntaxError
      | Some test =>
          if negb (test val) then
            Ok (push this (orElse (JsonSchema.errorMessage schema)
                                  (localize "patternWarning" [ArgString p])) st)
          else Ok st
      end
  | None => Ok st
  end.

(** A child validated into a fresh result that is then merged as a
    property match. *)
Definition validateChild (validate : Validate) (subSchema : Schema) (child : ASTNode)
  (offset : Z) (st : State) : Result State :=
  let! sub := validate subSchema child ValidationResult.new (trace st) offset (types st) in
  Ok (mergeChild st sub).

Definition addValueMatches (n : N) (st : State) : State :=
  mkState (types st) (ValidationResult.addPropertiesValueMatches (result st) n) (trace st).

(** [ArrayASTNode.validate] *)
Definition ArrayASTNode_validate (validate : Validate) (schema : Schema)
  (this : ASTNode) (items : list ASTNode)
  (validationResult : VR) (matchingSchemas : option (list IApplicableSchema))
  (offset : Z) (types0 : TypeStore) : Result State :=
  if outside this offset then Ok (mkState types0 validationResult matchingSchemas) else
  let! st := ASTNode_validate validate schema this validationResult matchingSchemas
                              offset types0 in
  let! st :=
    match JsonSchema.items schema with
    | JsonSchema.ItemsArray subSchemas =>
        let! st :=
          forEachIndex
            (fun subSchema index st =>
               match items !! index with
               | Some item => validateChild validate subSchema item offset st
               | None =>
                   if (length subSchemas <=? length items)%nat
                   then Ok (addValueMatches 1 st) else Ok st
               end)
            0%nat subSchemas st in
        if bool_decide (JsonSchema.additionalItems schema = Some false)
           && (length subSchemas <? length items)%nat then
          Ok (push this (localize "additionalItemsWarning" [ArgCount (length subSchemas)]) st)
        else if (length subSchemas <=? length items)%nat then
          Ok (addValueMatches (N.of_nat (length items - length subSchemas)) st)
        else Ok st
    | JsonSchema.ItemsSchema subSchema =>
        forEach (fun item st => validateChild validate subSchema item offset st) items st
    | JsonSchema.ItemsAbsent => Ok st
    end in
  let st :=
    if whenTruthy (JsonSchema.minItems schema) (fun n => numLt (lengthOf items) n) then
      push this (localize "minItemsWarning" [ArgNumber (JsonSchema.minItems schema)]) st
    else st in
  let st :=
    if whenTruthy (JsonSchema.maxItems schema) (fun n => numLt n (lengthOf items)) then
      push this (localize "maxItemsWarning" [ArgNumber (JsonSchema.minItems schema)]) st
    else st in
  if bool_decide (JsonSchema.uniqueItems schema = Some true) then
    let! values :=
      forEach (fun item vs => let! v := getValue item in Ok (vs ++ [v])) items [] in
    if duplicates values then
      Ok (push this (localize "uniqueItemsWarning" []) st)
    else Ok st
  else Ok st.

(** A property name taken off [unprocessedProperties] and its value, when
    seen, validated as a property match: the body shared by the
    [properties] and [patternProperties] loops. *)
Definition processProperty (validate : Validate)
  (seenKeys : gmap string (option ASTNode)) (offset : Z)
  (propertyName : string) (prop : Schema) (acc : State * list string)
  : Result (State * list string) :=
  let '(st, unprocessedProperties) := acc in
  let unprocessedProperties := propertyProcessed propertyName unprocessedProperties in
  match seen seenKeys propertyName with
  | Some child =>
      let! st := validateChild validate prop child offset st in
      Ok (st, unprocessedProperties)
  | None => Ok (st, unprocessedProperties)
  end.

(** [ObjectASTNode.validate] *)
Definition ObjectASTNode_validate (validate : Validate) (schema : Schema)
  (this : ASTNode) (properties : list Property)
  (validationResult : VR) (matchingSchemas : option (list IApplicableSchema))
  (offset : Z) (types0 : TypeStore) : Result State :=
  if outside this offset then Ok (mkState types0 validationResult matchingSchemas) else
  let! st := ASTNode_validate validate schema this validationResult matchingSchemas
                              offset types0 in
  let! (seenKeys, unprocessedProperties) :=
    forEach (fun (node : Property) '(seenKeys, unprocessedProperties) =>
               match key node with
               | Some k =>
                   Ok (<[s_value k := value node]> seenKeys,
                       unprocessedProperties ++ [s_value k])
               | None => Throw TypeError
               end)
            properties ((∅ : gmap string (option ASTNode)), []) in
  let st :=
    match JsonSchema.required schema with
    | Some names =>
        fold_left
          (fun st propertyName =>
             match seen seenKeys propertyName with
             | Some _ => st
             | None =>
                 let location :=
                   match parent this with
                   | ParentNode (Some keyRange) => keyRange
                   | _ => mkRange (start this) (start this + 1)
                   end in
                 mkState (types st)
                   (ValidationResult.pushWarning (result st)
                      {| location := location;
                         message := localize "MissingRequiredPropWarning"
                                             [ArgString propertyName] |})
                   (trace st)
             end)
          names st
    | None => st
    end in
  let! (st, unprocessedProperties) :=
    match JsonSchema.properties schema with
    | Some props =>
        forEach (fun '(propertyName, prop) acc =>
                   processProperty validate seenKeys offset propertyName prop acc)
                props (st, unprocessedProperties)
    | None => Ok (st, unprocessedProperties)
    end in
  let! (st, unprocessedProperties) :=
    match JsonSchema.patternProperties schema with
    | Some props =>
        forEach (fun '(propertyPattern, prop) '(st, unprocessedProperties) =>
                   match RegExp propertyPattern with
                   | None => Throw SyntaxError
                   | Some test =>
                       forEach (fun propertyName acc =>
                                  if test propertyName then
                                    processProperty validate seenKeys offset
                                                    propertyName prop acc
                                  else Ok acc)
                               unprocessedProperties (st, unprocessedProperties)
                   end)
                props (st, unprocessedProperties)
    | None => Ok (st, unprocessedProperties)
    end in
  let! st :=
    match JsonSchema.additionalProperties schema with
    | JsonSchema.AdditionalSchema subSchema =>
        forEach (fun propertyName st =>
                   match seen seenKeys propertyName with
                   | Some child => validateChild validate subSchema child offset st
                   | None => Ok st
                   end)
                unprocessedProperties st
    | JsonSchema.AdditionalFalse =>
        forEach (fun propertyName st =>
                   match seen seenKeys propertyName with
                   | Some child =>
                       match parent child with
                       | ParentNode (Some keyRange) =>
                           Ok (mkState (types st)
                                 (ValidationResult.pushWarning (result st)
                                    {| location := keyRange;
                                       message := localize "DisallowedExtraPropWarning"
                                                           [ArgString propertyName] |})
                                 (trace st))
                       | _ => Throw TypeError
                       end
                   | None => Ok st
                   end)
                unprocessedProperties st
    | JsonSchema.AdditionalAbsent => Ok st
    end in
  let st :=
    if whenTruthy (JsonSchema.maxProperties schema)
                  (fun n => numLt n (lengthOf properties)) then
      push this (localize "MaxPropWarning" [ArgNumber (JsonSchema.maxProperties schema)]) st
    else st in
  let st :=
    if whenTruthy (JsonSchema.minProperties schema)
                  (fun n => numLt (lengthOf properties) n) then
      push this (localize "MinPropWarning" [ArgNumber (JsonSchema.minProperties schema)]) st
    else st in
  match JsonSchema.dependencies schema with
  | Some deps =>
      forEach (fun '(k, dependency) st =>
                 match seen seenKeys k with
                 | Some _ =>
                     match dependency with
                     | JsonSchema.DependencyArray valueAsArray =>
                         Ok (fold_left
                               (fun st requiredProp =>
                                  match seen seenKeys requiredProp with
                                  | None =>
                                      push this
                                        (localize "RequiredDependentPropWarning"
                                                  [ArgString requiredProp; ArgString k]) st
                                  | Some _ => addValueMatches 1 st
                                  end)
                               valueAsArray st)
                     | JsonSchema.DependencySchema valueAsSchema =>
                         validateChild validate valueAsSchema this offset st
                     | JsonSchema.DependencyNone => Ok st
                     end
                 | None => Ok st
                 end)
              deps st
  | None => Ok st
  end.

(** [validate], dispatched on the class of the receiver. Every call the
    methods make on a sub-schema goes through it; a property hands the
    same schema to its value. *)
Fixpoint validate (schema : Schema) {struct schema} : ASTNode -> VR ->
  option (list IApplicableSchema) -> Z -> TypeStore -> Result State :=
  fix validateNode (this : ASTNode) (validationResult : VR)
    (matchingSchemas : option (list IApplicableSchema)) (offset : Z)
    (types0 : TypeStore) {struct this} : Result State :=
    match this with
    | NullASTNode _ | BooleanASTNode _ _ =>
        ASTNode_validate validate schema this validationResult matchingSchemas
                         offset types0
    | NumberASTNode _ ref isInteger v =>
        NumberASTNode_validate validate schema this ref isInteger v
                               validationResult matchingSchemas offset types0
    | StringASTNode s =>
        StringASTNode_validate validate schema this (s_value s)
                               validationResult matchingSchemas offset types0
    | ArrayASTNode _ items =>
        ArrayASTNode_validate validate schema this items
                              validationResult matchingSchemas offset types0
    | PropertyASTNode p =>
        if outside this offset then Ok (mkState types0 validationResult matchingSchemas)
        else
          match value p with
          | Some v => validateNode v validationResult matchingSchemas offset types0
          | None => Ok (mkState types0 validationResult matchingSchemas)
          end
    | ObjectASTNode _ properties =>
        ObjectASTNode_validate validate schema this properties
                               validationResult matchingSchemas offset types0
    end.

End Engine.

(** ** Structure of schemas and well-formed inputs *)

Definition dependencySchema (d : JsonSchema.Dependency Schema) : option Schema :=
  match d with
  | JsonSchema.DependencySchema s => Some s
  | _ => None
  end.

(** The schemas nested one level below a schema. *)
Definition subSchemas (schema : Schema) : list Schema :=
  default [] (JsonSchema.allOf schema)
  ++ option_list (JsonSchema.not schema)
  ++ default [] (JsonSchema.anyOf schema)
  ++ default [] (JsonSchema.oneOf schema)
  ++ match JsonSchema.items schema with
     | JsonSchema.ItemsArray l => l
     | JsonSchema.ItemsSchema s => [s]
     | JsonSchema.ItemsAbsent => []
     end
  ++ (snd <$> default [] (JsonSchema.properties schema))
  ++ (snd <$> default [] (JsonSchema.patternProperties schema))
  ++ match JsonSchema.additionalProperties schema with
     | JsonSchema.AdditionalSchema s => [s]
     | _ => []
     end
  ++ omap (fun e => dependencySchema (snd e)) (default [] (JsonSchema.dependencies schema)).

(** Every regular expression the schema holds compiles: its [pattern],
    the keys of its [patternProperties], and those of the schemas nested in
    it. *)
Fixpoint compilable (RegExp : string -> option (string -> bool)) (schema : Schema) : bool :=
  let all := forallb (compilable RegExp) in
  match JsonSchema.pattern schema with
  | Some p => String.eqb p "" || bool_decide (is_Some (RegExp p))
  | None => true
  end
  && from_option all true (JsonSchema.allOf schema)
  && from_option (compilable RegExp) true (JsonSchema.not schema)
  && from_option all true (JsonSchema.anyOf schema)
  && from_option all true (JsonSchema.oneOf schema)
  && match JsonSchema.items schema with
     | JsonSchema.ItemsArray l => all l
     | JsonSchema.ItemsSchema s => compilable RegExp s
     | JsonSchema.ItemsAbsent => true
     end
  && from_option (forallb (fun e => compilable RegExp (snd e))) true
                 (JsonSchema.properties schema)
  && from_option (forallb (fun e => bool_decide (is_Some (RegExp (fst e)))
                                     && compilable RegExp (snd e))) true
                 (JsonSchema.patternProperties schema)
  && match JsonSchema.additionalProperties schema with
     | JsonSchema.AdditionalSchema s => compilable RegExp s
     | _ => true
     end
  && from_option (forallb (fun e => match snd e with
                                     | JsonSchema.DependencySchema s => compilable RegExp s
                                     | _ => true
                                     end)) true
                 (JsonSchema.dependencies schema).

(** A tree whose properties are attached: every property has its key, and
    the value of a property refers back to that property through
    [parent]. *)
Fixpoint attached (node : ASTNode) : bool :=
  let property (p : Property) : bool :=
    match key p with
    | Some k =>
        match value p with
        | Some v =>
            bool_decide (parent v = ParentNode (Some (rangeOf (s_fields k)))) && attached v
        | None => true
        end
    | None => false
    end in
  match node with
  | ArrayASTNode _ items => forallb attached items
  | ObjectASTNode _ properties => forallb property properties
  | PropertyASTNode p => property p
  | _ => true
  end.


(** The schema that holds the given limit keywords and nothing else. *)
Definition limits (minLength maxLength minItems maxItems minProperties maxProperties
                   : option JSNumber) : Schema :=
  JsonSchema.mk JsonSchema.TypeAbsent None None None None None None None None false None false
    minLength maxLength None JsonSchema.ItemsAbsent None minItems maxItems
    None None None None JsonSchema.AdditionalAbsent maxProperties minProperties None.

Definition zero : option JSNumber := Some (ofZ 0).

(** A call that returns with the result and the [type] fields it was given. *)
Definition quiet (vr : VR) (types0 : TypeStore) (r : Result State) : Prop :=
  match r with
  | Ok st => result st = vr /\ types st = types0
  | Throw _ => False
  end.

(** [r] returns a value satisfying [Q], or throws where [Bad] allows it. *)
Definition Holds {A} (Bad : Prop) (Q : A -> Prop) (r : Result A) : Prop :=
  match r with
  | Ok a => Q a
  | Throw _ => Bad
  end.




(** *** Specifications of a call

    [Good] relates the [type] fields a call finds to those it leaves,
    [Bad] tells whether a call may throw. *)

(** What a call needs of its receiver, unless it may throw. *)
Definition NodePre (Bad : Prop) (this : ASTNode) : Prop :=
  Bad \/ attached this = true.

Definition Post (Good : TypeStore -> TypeStore -> Prop) (Bad : Prop)
  (types0 : TypeStore) (r : Result State) : Prop :=
  Holds Bad (fun st => Good types0 (types st)) r.

Definition Sound (Good : TypeStore -> TypeStore -> Prop) (Bad : Prop)
  (v : Validate) (schema : Schema) : Prop :=
  forall this vr ms offset types0,
    NodePre Bad this -> Post Good Bad types0 (v schema this vr ms offset types0).

(** What the engine needs of a node found in [seenKeys]. *)
Definition ChildPre (Bad : Prop) (child : ASTNode) : Prop :=
  Bad \/ (attached child = true /\ exists r, parent child = ParentNode (Some r)).

Definition SeenPre (Bad : Prop) (seenKeys : gmap string (option ASTNode)) : Prop :=
  forall k child, seen seenKeys k = Some child -> ChildPre Bad child.

(** [properties] whose every entry has its key. *)
Definition hasKeys (properties : list Property) : bool :=
  forallb (fun p => bool_decide (is_Some (key p))) properties.

(** ** Sample inputs *)

Module Sample.

(** An engine for patterns free of metacharacters, which match the
    strings that contain them; ["("], an unterminated group, does not
    compile. *)
Definition RegExp (pattern : string) : option (string -> bool) :=
  if String.eqb pattern "(" then None
  else Some (fun s => bool_decide (is_Some (String.index 0 pattern s))).

Definition at_ (start_ end__ : Z) (parent_ : ParentRef) : NodeFields :=
  mkFields None start_ end__ parent_.

(** The array [[a, 5]]: a string at [1,3) and an integer at [5,7). *)
Definition letter : ASTNode :=
  StringASTNode (mkString (at_ 1 3 (ParentNode None)) false "a").
Definition five : ASTNode :=
  NumberASTNode (at_ 5 7 (ParentNode None)) 0 true (ofZ 5).
Definition pair : ASTNode := ArrayASTNode (at_ 0 10 NoParent) [letter; five].

(** The object [{k: v}]: the key at [1,4), the value at [6,10). *)
Definition keyK : StringFields :=
  mkString (mkFields (Some "k"%string) 1 4 (ParentNode (Some (mkRange 1 4)))) true "k".
Definition valueV : ASTNode :=
  StringASTNode
    (mkString (mkFields (Some "k"%string) 6 10 (ParentNode (Some (mkRange 1 4)))) false "v").
Definition entry : Property :=
  mkProperty (at_ 1 10 (ParentNode None)) (Some keyK) (Some valueV) 4.
Definition document : ASTNode := ObjectASTNode (at_ 0 20 NoParent) [entry].


(** [{type: t}], with [allOf: l] beside it in [typedAllOf]. *)
Definition typedAllOf (t : JsonSchema.SchemaType) (l : option (list Schema)) : Schema :=
  JsonSchema.mk t None l None None None None None None false None false None None None
    JsonSchema.ItemsAbsent None None None None None None None JsonSchema.AdditionalAbsent
    None None None.
Definition typed (t : string) : Schema := typedAllOf (JsonSchema.TypeString t) None.

(** [{allOf: l}], [{anyOf: l}], [{oneOf: l}] *)
Definition allOfOnly (l : list Schema) : Schema :=
  typedAllOf JsonSchema.TypeAbsent (Some l).
Definition anyOfOnly (l : list Schema) : Schema :=
  JsonSchema.mk JsonSchema.TypeAbsent None None None (Some l) None None None None false
    None false None None None JsonSchema.ItemsAbsent None None None None None None None
    JsonSchema.AdditionalAbsent None None None.
Definition oneOfOnly (l : list Schema) : Schema :=
  JsonSchema.mk JsonSchema.TypeAbsent None None None None (Some l) None None None false
    None false None None None JsonSchema.ItemsAbsent None None None None None None None
    JsonSchema.AdditionalAbsent None None None.

(** [{items: s}] *)
Definition itemsOnly (s : Schema) : Schema :=
  JsonSchema.mk JsonSchema.TypeAbsent None None None None None None None None false
    None false None None None (JsonSchema.ItemsSchema s) None None None None None None None
    JsonSchema.AdditionalAbsent None None None.

(** [{pattern: p}] *)
Definition patternOnly (p : string) : Schema :=
  JsonSchema.mk JsonSchema.TypeAbsent None None None None None None None None false
    None false None None (Some p) JsonSchema.ItemsAbsent None None None None None None None
    JsonSchema.AdditionalAbsent None None None.

(** A whole-document call, as [YAMLDocument.validate] makes it: a fresh
    result, no trace, every Number node reading ['number']. *)
Definition run (schema : Schema) (this : ASTNode) (offset : Z) : Result State :=
  validate RegExp schema this ValidationResult.new None offset ∅.

Definition warningsOf (r : Result State) : option (list IError) :=
  match r with
  | Ok st => Some (ValidationResult.warnings (result st))
  | Throw _ => None
  end.

Definition typeMismatch (start_ end__ : Z) (expected : string) : IError :=
  warning start_ end__ (localize "typeMismatchWarning" [ArgString expected]).

End Sample.

(** ** The invariant of the node model *)

(** The range of [inner] lies within the range of [outer]. *)
Definition within (outer inner : NodeFields) : bool :=
  (f_start outer <=? f_start inner) && (f_end inner <=? f_end outer).

Fixpoint sortedStarts (starts : list Z) : bool :=
  match starts with
  | a :: (b :: _) as rest => (a <=? b) && sortedStarts rest
  | _ => true
  end.

(** Every child's range is contained in its parent's and the children of a
    node are sorted by [start], throughout the tree. *)
Fixpoint invariant (node : ASTNode) : bool :=
  let property (p : Property) : bool :=
    match key p, value p with
    | Some k, Some v =>
        within (p_fields p) (s_fields k) && within (p_fields p) (fields v)
        && (f_start (s_fields k) <=? start v) && invariant v
    | Some k, None => within (p_fields p) (s_fields k)
    | None, Some v => within (p_fields p) (fields v) && invariant v
    | None, None => true
    end in
  match node with
  | ArrayASTNode f items =>
      forallb (fun child => within f (fields child) && invariant child) items
      && sortedStarts (start <$> items)
  | ObjectASTNode f properties =>
      forallb (fun p => within f (p_fields p) && property p) properties
      && sortedStarts ((fun p => f_start (p_fields p)) <$> properties)
  | PropertyASTNode p => property p
  | _ => true
  end.

(** The starts of the children that are present. *)
Definition childStarts (children : list (option ASTNode)) : list Z :=
  start <$> omap id children.

(** None of the children contains the offset. *)
Definition missesAll (offset : Z) (children : list (option ASTNode)) : Prop :=
  forall child, Some child ∈ children -> contains child offset false = false.

(** ** The ranking of alternatives, as the specification words it *)

Module Ranking.
Import ValidationResult.

(** [a] is ranked above [b]: it is the one without errors or warnings;
    failing that, the one with the enum match; failing that, the one with
    more property value matches; failing that, the one with more property
    matches. *)
Definition wins (a b : VR) : Prop :=
  (hasErrors a = false /\ hasErrors b = true)
  \/ (hasErrors a = hasErrors b
      /\ ((enumValueMatch a = true /\ enumValueMatch b = false)
          \/ (enumValueMatch a = enumValueMatch b
              /\ ((propertiesValueMatches b < propertiesValueMatches a)%N
                  \/ (propertiesValueMatches a = propertiesValueMatches b
                      /\ (propertiesMatches b < propertiesMatches a)%N))))).

Definition tie (a b : VR) : Prop :=
  hasErrors a = hasErrors b
  /\ enumValueMatch a = enumValueMatch b
  /\ propertiesValueMatches a = propertiesValueMatches b
  /\ propertiesMatches a = propertiesMatches b.

End Ranking.

(** ** Further operations of the node model *)

(** [findNode] of [getNodeFromOffsetEndInclusive]: the range test admits
    the right bound, the loop over the children is the same. *)
Fixpoint findNodeEndInclusive (offset : Z) (node : ASTNode) {struct node}
  : Result (option ASTNode) :=
  let inside (f : NodeFields) := (f_start f <=? offset) && (offset <=? f_end f) in
  let findLeaf (leaf : ASTNode) :=
    if inside (fields leaf) then Ok (Some leaf) else Ok None in
  let findProperty (p : Property) :=
    if inside (p_fields p) then
      match key p with
      | None => Throw TypeError
      | Some k =>
          let rest :=
            match value p with
            | Some v =>
                if start v <=? offset then
                  let! item := findNodeEndInclusive offset v in
                  match item with
                  | Some found => Ok (Some found)
                  | None => Ok (Some (PropertyASTNode p))
                  end
                else Ok (Some (PropertyASTNode p))
            | None => Ok (Some (PropertyASTNode p))
            end in
          if f_start (s_fields k) <=? offset then
            let! item := findLeaf (StringASTNode k) in
            match item with
            | Some found => Ok (Some found)
            | None => rest
            end
          else Ok (Some (PropertyASTNode p))
      end
    else Ok None in
  match node with
  | ArrayASTNode f items =>
      if inside f then
        (fix loop (children : list ASTNode) :=
           match children with
           | [] => Ok (Some node)
           | child :: rest =>
               if start child <=? offset then
                 let! item := findNodeEndInclusive offset child in
                 match item with
                 | Some found => Ok (Some found)
                 | None => loop rest
                 end
               else Ok (Some node)
           end) items
      else Ok None
  | ObjectASTNode f properties =>
      if inside f then
        (fix loop (children : list Property) :=
           match children with
           | [] => Ok (Some node)
           | child :: rest =>
               if f_start (p_fields child) <=? offset then
                 let! item := findProperty child in
                 match item with
                 | Some found => Ok (Some found)
                 | None => loop rest
                 end
               else Ok (Some node)
           end) properties
      else Ok None
  | PropertyASTNode p => findProperty p
  | _ => findLeaf node
  end.

Definition getNodeFromOffsetEndInclusive (this : ASTNode) (offset : Z)
  : Result (option ASTNode) :=
  findNodeEndInclusive offset this.

(** The range test of the end-inclusive search. *)
Definition spans (offset : Z) (node_ : ASTNode) : bool :=
  (start node_ <=? offset) && (offset <=? end_ node_).

(** [node] is [root] or lies below it. *)
Inductive inTree (root : ASTNode) : ASTNode -> Prop :=
| inTree_root : inTree root root
| inTree_child (parent_ child : ASTNode) :
    inTree root parent_ -> Some child ∈ getChildNodes parent_ -> inTree root child.

(** [visit]: the visitor is called on the receiver, then on the nodes below
    it, until it answers [false]. The visitor may update a state [St] of its
    own; the answer of [visit] is kept as its truthiness. A property visits
    its key ([this.key.visit], which throws when the key is unset) and its
    value, and answers [this.value], which is falsy, when it has none. *)
Fixpoint visit {St} (visitor : ASTNode -> St -> bool * St) (this : ASTNode) (s : St)
  {struct this} : Result (bool * St) :=
  let visitProperty (p : Property) (s : St) : Result (bool * St) :=
    let '(ok, s) := visitor (PropertyASTNode p) s in
    if ok then
      match key p with
      | None => Throw TypeError
      | Some k =>
          let '(ok, s) := visitor (StringASTNode k) s in
          if ok then
            match value p with
            | Some v => visit visitor v s
            | None => Ok (false, s)
            end
          else Ok (false, s)
      end
    else Ok (false, s) in
  match this with
  | ArrayASTNode _ items =>
      let '(ctn, s) := visitor this s in
      (fix loop (items : list ASTNode) (ctn : bool) (s : St) :=
         match items with
         | [] => Ok (ctn, s)
         | item :: rest =>
             if ctn then
               let! (ctn', s') := visit visitor item s in loop rest ctn' s'
             else Ok (ctn, s)
         end) items ctn s
  | ObjectASTNode _ properties =>
      let '(ctn, s) := visitor this s in
      (fix loop (properties : list Property) (ctn : bool) (s : St) :=
         match properties with
         | [] => Ok (ctn, s)
         | p :: rest =>
             if ctn then
               let! (ctn', s') := visitProperty p s in loop rest ctn' s'
             else Ok (ctn, s)
         end) properties ctn s
  | PropertyASTNode p => visitProperty p s
  | _ => Ok (visitor this s)
  end.

(** The nodes of a tree, a node before the nodes below it, children in
    order. *)
Fixpoint preorder (this : ASTNode) : list ASTNode :=
  let property (p : Property) : list ASTNode :=
    PropertyASTNode p
    :: match key p with Some k => [StringASTNode k] | None => [] end
    ++ match value p with Some v => preorder v | None => [] end in
  match this with
  | ArrayASTNode _ items => this :: flat_map preorder items
  | ObjectASTNode _ properties => this :: flat_map property properties
  | PropertyASTNode p => property p
  | _ => [this]
  end.

(** The visitor called on the nodes of a list in turn, until it answers
    [false]. *)
Fixpoint visitList {St} (visitor : ASTNode -> St -> bool * St) (nodes : list ASTNode)
  (s : St) : bool * St :=
  match nodes with
  | [] => (true, s)
  | node_ :: rest =>
      let '(ok, s') := visitor node_ s in
      if ok then visitList visitor rest s' else (false, s')
  end.

(** Every property of the tree has a key and a value. *)
Fixpoint complete (this : ASTNode) : bool :=
  let property (p : Property) : bool :=
    match key p, value p with
    | Some _, Some v => complete v
    | _, _ => false
    end in
  match this with
  | ArrayASTNode _ items => forallb complete items
  | ObjectASTNode _ properties => forallb property properties
  | PropertyASTNode p => property p
  | _ => true
  end.

(** [ObjectASTNode.getFirstProperty], on the [properties] field; reading
    [key.value] throws where a key is unset. *)
Fixpoint getFirstProperty (properties : list Property) (k : string)
  : Result (option Property) :=
  match properties with
  | [] => Ok None
  | p :: rest =>
      match key p with
      | None => Throw TypeError
      | Some k' => if String.eqb (s_value k') k then Ok (Some p) else getFirstProperty rest k
      end
  end.

(** [ObjectASTNode.getKeyList] *)
Fixpoint getKeyList (properties : list Property) : Result (list string) :=
  match properties with
  | [] => Ok []
  | p :: rest =>
      match key p with
      | None => Throw TypeError
      | Some k => let! keys := getKeyList rest in Ok (s_value k :: keys)
      end
  end.

(** [new PropertyASTNode(parent)] *)
Definition newProperty (parent_ : ParentRef) : Property :=
  mkProperty (mkFields None 0 0 parent_) None None (-1).

(** ** What a call of [validate] may do to its result and trace *)

(** [vr'] keeps the errors of [vr], extends its warnings, and has counters
    and enum match at least those of [vr]. *)
Definition grows (vr vr' : VR) : Prop :=
  ValidationResult.errors vr' = ValidationResult.errors vr
  /\ (exists added,
        ValidationResult.warnings vr' = ValidationResult.warnings vr ++ added)
  /\ (ValidationResult.propertiesMatches vr
      <= ValidationResult.propertiesMatches vr')%N
  /\ (ValidationResult.propertiesValueMatches vr
      <= ValidationResult.propertiesValueMatches vr')%N
  /\ (ValidationResult.enumValueMatch vr = true
      -> ValidationResult.enumValueMatch vr' = true).

(** A trace that was not requested stays [null]; a requested one is
    extended. *)
Definition traceGrows (ms ms' : option (list IApplicableSchema)) : Prop :=
  match ms with
  | None => ms' = None
  | Some l => exists added, ms' = Some (l ++ added)
  end.

(** The state [st] of a call that was handed [vr] and [ms]. *)
Definition Grown (vr : VR) (ms : option (list IApplicableSchema)) (st : State) : Prop :=
  grows vr (result st) /\ traceGrows ms (trace st).

Definition Growing (v : Validate) (schema : Schema) : Prop :=
  forall this vr ms offset types0,
    Holds True (Grown vr ms) (v schema this vr ms offset types0).

(** ** Schemas of one keyword, and what an object shows of a name *)

(** [{required: names}] *)
Definition requiredOnly (names : list string) : Schema :=
  JsonSchema.mk JsonSchema.TypeAbsent None None None None None None None None false
    None false None None None JsonSchema.ItemsAbsent None None None None (Some names)
    None None JsonSchema.AdditionalAbsent None None None.

(** The last of the properties whose key reads [k]. *)
Fixpoint lastNamed (properties : list Property) (k : string) : option Property :=
  match properties with
  | [] => None
  | p :: rest =>
      match lastNamed rest k with
      | Some q => Some q
      | None =>
          match key p with
          | Some k' => if String.eqb (s_value k') k then Some p else None
          | None => None
          end
      end
  end.

(** No value is seen under the name [k]: no property has that name, or the
    last that has holds no value. *)
Definition unseen (properties : list Property) (k : string) : bool :=
  match lastNamed properties k ≫= value with
  | Some _ => false
  | None => true
  end.

(** The members every plain object inherits. [seenKeys] is such an object:
    one of these names reads as set in it whether or not a property bears
    it, and a property named ["__proto__"] replaces what it inherits
    instead of being stored. The finite map of own keys is exact for the
    other names. *)
Definition inheritedMembers : list string :=
  ["constructor"; "hasOwnProperty"; "isPrototypeOf"; "propertyIsEnumerable";
   "toLocaleString"; "toString"; "valueOf"; "__proto__";
   "__defineGetter__"; "__defineSetter__"; "__lookupGetter__"; "__lookupSetter__"]%string.

(** None of [names] is an inherited member. *)
Definition ownNames (names : list string) : bool :=
  forallb (fun k => negb (existsb (String.eqb k) inheritedMembers)) names.

(** No property is named ["__proto__"]. *)
Definition plainKeys (properties : list Property) : bool :=
  forallb (fun p => match key p with
                    | Some k => negb (String.eqb (s_value k) "__proto__")
                    | None => true
                    end) properties.

(** The warning of [required] for the name [propertyName], on [this]. *)
Definition missingProperty (this : ASTNode) (propertyName : string) : IError :=
  {| location := match parent this with
                 | ParentNode (Some keyRange) => keyRange
                 | _ => mkRange (start this) (start this + 1)
                 end;
     message := localize "MissingRequiredPropWarning" [ArgString propertyName] |}.

(** ** The diagnostics sent to the editor *)

Module DiagnosticSeverity.
Inductive t := Error | Warning.
End DiagnosticSeverity.

(** A diagnostic; its range is kept as the offsets handed to
    [textDocument.positionAt]. *)
Record Diagnostic := mkDiagnostic {
  severity : DiagnosticSeverity.t;
  range : IRange;
  d_message : string
}.

Section Server.

(** The text of a message, as [localize] renders it. *)
Variable render : Message -> string.

(** [start + ' ' + end + ' ' + message]: offsets hold no space, so the
    string determines its three parts, which stand for it here; it holds
    a space, so it is never the name of an inherited member of [added]. *)
Definition signatureOf (error : IError) : Z * Z * string :=
  (range_start (location error), range_end (location error), render (message error)).

(** The body of the loop of [validateTextDocument] over
    [errors.concat(warnings)], [count] being [errors.length]: an entry
    whose signature was already added is dropped, the others become
    diagnostics. *)
Definition addDiagnostic (count : nat)
    (acc : gset (Z * Z * string) * list Diagnostic) (entry : nat * IError)
  : gset (Z * Z * string) * list Diagnostic :=
  let '(added, diagnostics) := acc in
  let '(idx, error) := entry in
  let signature := signatureOf error in
  if decide (signature ∈ added) then (added, diagnostics)
  else ({[signature]} ∪ added,
        diagnostics
          ++ [mkDiagnostic
                (if (count <=? idx)%nat
                 then DiagnosticSeverity.Warning
                 else DiagnosticSeverity.Error)
                (location error) (render (message error))]).

Definition toDiagnostics (errors warnings : list IError) : list Diagnostic :=
  snd (fold_left (addDiagnostic (length errors))
         (imap (fun idx error => (idx, error)) (errors ++ warnings))
         (∅, [])).

End Server.

Definition diagnosticSignature (d : Diagnostic) : Z * Z * string :=
  (range_start (range d), range_end (range d), d_message d).

(** ** A result as an accumulator *)

(** [r] applied to what a call returns; what it throws is kept. *)
Definition onResult {A B} (f : A -> B) (r : Result A) : Result B :=
  let! a := r in Ok (f a).

(** What [delta] adds, put on top of [vr]. *)
Definition accumulate (vr delta : VR) : VR :=
  ValidationResult.mk
    (ValidationResult.errors vr ++ ValidationResult.errors delta)
    (ValidationResult.warnings vr ++ ValidationResult.warnings delta)
    (ValidationResult.propertiesMatches vr + ValidationResult.propertiesMatches delta)%N
    (ValidationResult.propertiesValueMatches vr
     + ValidationResult.propertiesValueMatches delta)%N
    (ValidationResult.enumValueMatch vr || ValidationResult.enumValueMatch delta).

(** The state [st] of a call, had [vr] been in the result beforehand. *)
Definition rebase (vr : VR) (st : State) : State :=
  mkState (types st) (accumulate vr (result st)) (trace st).

Definition Accumulating (v : Validate) (schema : Schema) : Prop :=
  forall this vr r ms offset types0,
    v schema this (accumulate vr r) ms offset types0
    = onResult (rebase vr) (v schema this r ms offset types0).

(** ** Further sample inputs *)

Module Case.

(** The property [k:] of an object, its value missing. *)
Definition bare : Property :=
  mkProperty (Sample.at_ 1 5 (ParentNode None)) (Some Sample.keyK) None 4.

(** A visitor that counts the nodes it is shown and never stops. *)
Definition count (node : ASTNode) (seen : nat) : bool * nat := (true, S seen).

End Case.

(** ** The node a call validates, and the steps of a call *)





(** ** Names and keys for which [seenKeys] reads as a finite map *)



(** ** A sample schema with names *)

Module Keyed.

(** [{required: ["k"], properties: {k: {pattern: "v"}}}] *)
Definition schema : Schema :=
  JsonSchema.mk JsonSchema.TypeAbsent None None None None None None None None false
    None false None None None JsonSchema.ItemsAbsent None None None None
    (Some ["k"%string]) (Some [("k"%string, Sample.patternOnly "v")]) None
    JsonSchema.AdditionalAbsent None None None.

End Keyed.

(** ** Properties of the validation result *)

Section ValidationResultFacts.
Import ValidationResult.

Lemma hasErrors_false (r : VR) :
  hasErrors r = false <-> errors r = [] /\ warnings r = [].
Proof.
  unfold hasErrors. destruct (errors r), (warnings r); simpl; split;
    try tauto; try discriminate; intros [? ?]; discriminate.
Qed.

(** C2. [compare] ranks two results by the precedence errors/warnings,
    enum match, property value matches, property matches; its sign is
    positive when the receiver wins, negative when the argument wins and
    it is zero exactly on a complete tie. *)
Theorem compare_precedence (a b : VR) :
  (0 < compare a b <-> Ranking.wins a b)
  /\ (compare a b < 0 <-> Ranking.wins b a)
  /\ (compare a b = 0 <-> Ranking.tie a b).
Proof.
  unfold compare, Ranking.wins, Ranking.tie.
  destruct (hasErrors a) eqn:Ha, (hasErrors b) eqn:Hb; simpl;
    destruct (enumValueMatch a) eqn:Ea, (enumValueMatch b) eqn:Eb; simpl;
    try solve [intuition (try discriminate; try lia)].
  all: destruct (N.eqb_spec (propertiesValueMatches a) (propertiesValueMatches b)) as [E|E];
    simpl; intuition (try discriminate; try lia).
Qed.

(** C3. [mergePropertyMatch] appends the child's errors and warnings in
    order, adds exactly one to [propertiesMatches], and adds one to
    [propertiesValueMatches] exactly when the child has an enum match or
    is free of errors and warnings with at least one property match. *)
Theorem mergePropertyMatch_spec (parent child : VR) :
  let merged := mergePropertyMatch parent child in
  let deep := enumValueMatch child = true
              \/ (errors child = [] /\ warnings child = []
                  /\ (1 <= propertiesMatches child)%N) in
  errors merged = errors parent ++ errors child
  /\ warnings merged = warnings parent ++ warnings child
  /\ propertiesMatches merged = (propertiesMatches parent + 1)%N
  /\ (deep -> propertiesValueMatches merged = (propertiesValueMatches parent + 1)%N)
  /\ (~ deep -> propertiesValueMatches merged = propertiesValueMatches parent)
  /\ enumValueMatch merged = enumValueMatch parent.
Proof.
  cbv zeta. unfold mergePropertyMatch.
  destruct (enumValueMatch child) eqn:E; simpl.
  - repeat split; auto. intros H. exfalso. apply H. now left.
  - destruct (hasErrors child) eqn:H; simpl.
    + repeat split; auto. intros [?|(He & Hw & _)]; [discriminate|].
      assert (hasErrors child = false) by (apply hasErrors_false; auto). congruence.
    + apply hasErrors_false in H as [He Hw].
      destruct (N.eqb_spec (propertiesMatches child) 0) as [Z|Z]; simpl.
      * repeat split; auto. intros [?|(_ & _ & ?)]; [discriminate|lia].
      * repeat split; auto. intros Hn. exfalso. apply Hn. right. repeat split; auto. lia.
Qed.

End ValidationResultFacts.

(** ** Properties of the node model *)

Section NodeInduction.

Variable P : ASTNode -> Prop.
Hypothesis step :
  forall node, Forall (from_option P True) (getChildNodes node) -> P node.

(** Induction on the tree, the children being those [getChildNodes] lists. *)
Lemma ASTNode_children_ind : forall node, P node.
Proof.
  fix IH 1. intros node. apply step.
  destruct node as [f|f v|f r i v|s|f items|p|f props]; simpl; try constructor.
  - induction items as [|x xs IHxs]; simpl; constructor; [apply IH | apply IHxs].
  - destruct p as [pf k [v|] co]; simpl.
    + constructor; [|constructor; [apply IH|constructor]].
      destruct k; simpl; [apply step; constructor|exact I].
    + constructor; [|constructor].
      destruct k; simpl; [apply step; constructor|exact I].
  - induction props as [|x xs IHxs]; simpl; constructor; [|apply IHxs].
    apply step. destruct x as [pf k [v|] co]; simpl.
    + constructor; [|constructor; [apply IH|constructor]].
      destruct k; simpl; [apply step; constructor|exact I].
    + constructor; [|constructor].
      destruct k; simpl; [apply step; constructor|exact I].
Qed.

End NodeInduction.

Section Lookup.

Variable offset : Z.

Lemma findNode_unfold (node : ASTNode) :
  findNode offset node =
  if (start node <=? offset) && (offset <? end_ node)
  then findInChildren (findNode offset) offset (getChildNodes node) node
  else Ok None.
Proof.
  destruct node as [f|f v|f r i v|s|f items|p|f props]; unfold start, end_; simpl.
  1-4: destruct ((_ <=? offset) && (offset <? _)); reflexivity.
  - 
    destruct ((f_start f <=? offset) && (offset <? f_end f)); [|reflexivity].
    generalize (ArrayASTNode f items) as node. intros node.
    induction items as [|x xs IH]; simpl; [reflexivity|].
    fold (start x).
    destruct (start x <=? offset); [|reflexivity].
    destruct (findNode offset x) as [[found|]|e]; simpl; auto.
  - 
    destruct ((f_start (p_fields p) <=? offset) && (offset <? f_end (p_fields p)));
      [|reflexivity].
    destruct p as [pf [k|] [v|] co]; simpl; reflexivity.
  -
    destruct ((f_start f <=? offset) && (offset <? f_end f)); [|reflexivity].
    generalize (ObjectASTNode f props) as node. intros node.
    unfold fmap.
    induction props as [|x xs IH]; simpl; [reflexivity|].
    change (start (PropertyASTNode x)) with (f_start (p_fields x)).
    destruct (f_start (p_fields x) <=? offset) eqn:Hx; [|reflexivity].
    rewrite IH. reflexivity.
Qed.

Lemma findInChildren_found (children : list (option ASTNode)) (node : ASTNode) :
  findInChildren (findNode offset) offset children node <> Ok None.
Proof.
  induction children as [|[child|] rest IH]; simpl; try discriminate.
  destruct (start child <=? offset); [|discriminate].
  destruct (findNode offset child) as [[found|]|e]; simpl; auto; discriminate.
Qed.

(** [findNode] answers [null] only for a node that does not contain the
    offset. *)
Lemma findNode_null (node : ASTNode) :
  findNode offset node = Ok None -> contains node offset false = false.
Proof.
  rewrite findNode_unfold. unfold contains. simpl.
  destruct ((start node <=? offset) && (offset <? end_ node)); [|reflexivity].
  intros H. now apply findInChildren_found in H.
Qed.

Lemma sortedStarts_head (a : Z) (l : list Z) :
  sortedStarts (a :: l) = true -> Forall (fun b => a <= b) l.
Proof.
  revert a. induction l as [|b l IH]; intros a; [constructor|].
  simpl. intros H. apply andb_true_iff in H as [Hab Hl].
  apply Z.leb_le in Hab. constructor; [exact Hab|].
  eapply Forall_impl; [apply IH, Hl|]. simpl. intros; lia.
Qed.

Lemma sortedStarts_tail (a : Z) (l : list Z) :
  sortedStarts (a :: l) = true -> sortedStarts l = true.
Proof.
  destruct l; [reflexivity|]. simpl. intros H. now apply andb_true_iff in H as [_ ?].
Qed.

Lemma missesAll_later (a : Z) (children : list (option ASTNode)) :
  offset < a -> Forall (fun b => a <= b) (childStarts children) -> missesAll offset children.
Proof.
  intros Ha Hall child Hin. unfold contains. simpl. rewrite orb_false_r.
  apply andb_false_iff. left. apply Z.leb_gt.
  rewrite Forall_forall in Hall.
  assert (a <= start child); [|lia].
  apply Hall. unfold childStarts. apply list_elem_of_fmap. exists child. split; [reflexivity|].
  apply list_elem_of_omap. exists (Some child). split; [exact Hin|reflexivity].
Qed.

(** The loop over the children either returns what the search found
    below a child, or the node itself when no child contains the offset. *)
Lemma findInChildren_spec (Q : ASTNode -> Prop) (children : list (option ASTNode))
  (node found : ASTNode) :
  Forall (from_option (fun child =>
            forall r, findNode offset child = Ok (Some r) -> Q r) True) children ->
  sortedStarts (childStarts children) = true ->
  findInChildren (findNode offset) offset children node = Ok (Some found) ->
  Q found \/ (found = node /\ missesAll offset children).
Proof.
  induction children as [|[child|] rest IH]; simpl; intros HQ Hs H.
  - right. split; [congruence|]. intros c Hc. inversion Hc.
  - inversion HQ as [|? ? Hchild Hrest]; subst. simpl in Hchild.
    unfold childStarts in Hs. simpl in Hs. fold (childStarts rest) in Hs.
    destruct (start child <=? offset) eqn:Hstart.
    + destruct (findNode offset child) as [[r|]|e] eqn:Hfind; simpl in H; try discriminate.
      * left. inversion H; subst. now apply Hchild.
      * apply findNode_null in Hfind.
        destruct (IH Hrest (sortedStarts_tail _ _ Hs) H) as [HQf|[-> Hmiss]]; [now left|].
        right. split; [reflexivity|]. intros c Hc.
        apply elem_of_cons in Hc as [Hc|Hc]; [congruence|now apply Hmiss].
    + right. split; [congruence|]. apply Z.leb_gt in Hstart.
      apply (missesAll_later (start child)); [exact Hstart|].
      unfold childStarts. simpl. constructor; [lia|].
      apply sortedStarts_head, Hs.
  - discriminate.
Qed.

Lemma invariant_children (node : ASTNode) :
  invariant node = true ->
  Forall (from_option (fun child => invariant child = true) True) (getChildNodes node)
  /\ sortedStarts (childStarts (getChildNodes node)) = true.
Proof.
  destruct node as [f|f v|f r i v|s|f items|p|f props]; simpl;
    try (intros _; split; [constructor|reflexivity]).
  - intros H. apply andb_true_iff in H as [Hall Hs]. split.
    + clear Hs. induction items as [|x xs IH]; simpl in *; constructor.
      * apply andb_true_iff in Hall as [Hx _]. now apply andb_true_iff in Hx as [_ ?].
      * apply IH. now apply andb_true_iff in Hall as [_ ?].
    + replace (childStarts (Some <$> items)) with (start <$> items); [exact Hs|].
      unfold childStarts. clear.
    induction items as [|x xs IH]; simpl; [reflexivity|f_equal; exact IH].
  - destruct p as [pf [k|] [v|] co]; simpl; intros H.
    + repeat (apply andb_true_iff in H as [H ?]). split.
      * repeat constructor; assumption.
      * unfold childStarts; simpl. now rewrite andb_true_r.
    + split; [repeat constructor|reflexivity].
    + apply andb_true_iff in H as [_ H]. split; [repeat constructor; assumption|reflexivity].
    + split; [repeat constructor|reflexivity].
  - intros H. apply andb_true_iff in H as [Hall Hs]. split.
    + clear Hs. induction props as [|x xs IH]; simpl in *; constructor.
      * apply andb_true_iff in Hall as [Hx _]. simpl.
        now apply andb_true_iff in Hx as [_ ?].
      * apply IH. now apply andb_true_iff in Hall as [_ ?].
    + replace (childStarts ((fun p => Some (PropertyASTNode p)) <$> props))
        with ((fun p => f_start (p_fields p)) <$> props); [exact Hs|].
      unfold childStarts. clear.
    induction props as [|x xs IH]; simpl; [reflexivity|f_equal; exact IH].
Qed.

Lemma findNode_deepest (node : ASTNode) :
  invariant node = true ->
  forall found, findNode offset node = Ok (Some found) ->
  contains found offset false = true /\ missesAll offset (getChildNodes found).
Proof.
  induction node as [node IH] using ASTNode_children_ind.
  intros Hinv found. rewrite findNode_unfold.
  destruct ((start node <=? offset) && (offset <? end_ node)) eqn:Hin; [|discriminate].
  intros H. destruct (invariant_children node Hinv) as [Hchildren Hs].
  eapply (findInChildren_spec
            (fun r => contains r offset false = true /\ missesAll offset (getChildNodes r)))
    in H; [| |exact Hs].
  - destruct H as [H|[-> Hmiss]]; [exact H|]. split; [|exact Hmiss].
    unfold contains. now rewrite Hin.
  - clear -IH Hchildren. induction (getChildNodes node) as [|[c|] cs IHcs];
      constructor; inversion IH; inversion Hchildren; subst; simpl in *; auto.
Qed.

(** C5. On a tree satisfying the invariant, the node [getNodeFromOffset]
    returns contains the offset and none of its children does. *)
Theorem getNodeFromOffset_deepest (root found : ASTNode) :
  invariant root = true ->
  getNodeFromOffset root offset = Ok (Some found) ->
  contains found offset false = true
  /\ forall child, Some child ∈ getChildNodes found -> contains child offset false = false.
Proof. intros Hinv H. exact (findNode_deepest root Hinv found H). Qed.

End Lookup.

(** ** Properties of the validation engine *)

Section Hoare.
Variable Bad : Prop.

Lemma Holds_bind {A B} (Q : A -> Prop) (Q' : B -> Prop) (r : Result A) (k : A -> Result B) :
  Holds Bad Q r -> (forall a, Q a -> Holds Bad Q' (k a)) -> Holds Bad Q' (bind r k).
Proof. destruct r; simpl; auto. Qed.

Lemma Holds_mono {A} (Q Q' : A -> Prop) (r : Result A) :
  Holds Bad Q r -> (forall a, Q a -> Q' a) -> Holds Bad Q' r.
Proof. destruct r; simpl; auto. Qed.

Lemma Holds_forEach {A St} (I : St -> Prop) (f : A -> St -> Result St) (l : list A) :
  Forall (fun x => forall s, I s -> Holds Bad I (f x s)) l ->
  forall s, I s -> Holds Bad I (forEach f l s).
Proof.
  induction 1 as [|x xs Hx _ IH]; intros s Hs; simpl; [exact Hs|].
  eapply Holds_bind; [apply Hx, Hs|]. exact IH.
Qed.

Lemma Holds_forEachIndex {A St} (I : St -> Prop) (f : A -> nat -> St -> Result St)
  (l : list A) :
  Forall (fun x => forall i s, I s -> Holds Bad I (f x i s)) l ->
  forall i s, I s -> Holds Bad I (forEachIndex f i l s).
Proof.
  induction 1 as [|x xs Hx _ IH]; intros i s Hs; simpl; [exact Hs|].
  eapply Holds_bind; [apply Hx, Hs|]. intros. now apply IH.
Qed.
End Hoare.

Section SchemaInduction.
Variable P : Schema -> Prop.
Hypothesis step : forall schema, Forall P (subSchemas schema) -> P schema.

Lemma Schema_sub_ind : forall schema, P schema.
Proof.
  fix IH 1. intros schema. apply step.
  destruct schema as [ty em allOf not anyOf oneOf en mo mi emi ma ema mil mal pa
                      items ai mii mai ui req props pprops ap map mip deps].
  unfold subSchemas; simpl.
  repeat apply Forall_app_2.
  - destruct allOf as [l|]; simpl; [|constructor].
    induction l as [|x xs IHl]; constructor; [apply IH|apply IHl].
  - destruct not as [s|]; simpl; repeat constructor. apply IH.
  - destruct anyOf as [l|]; simpl; [|constructor].
    induction l as [|x xs IHl]; constructor; [apply IH|apply IHl].
  - destruct oneOf as [l|]; simpl; [|constructor].
    induction l as [|x xs IHl]; constructor; [apply IH|apply IHl].
  - destruct items as [|l|s]; simpl; repeat constructor; [|apply IH].
    induction l as [|x xs IHl]; constructor; [apply IH|apply IHl].
  - destruct props as [l|]; simpl; [|constructor].
    induction l as [|[k x] xs IHl]; simpl; constructor; [apply IH|apply IHl].
  - destruct pprops as [l|]; simpl; [|constructor].
    induction l as [|[k x] xs IHl]; simpl; constructor; [apply IH|apply IHl].
  - destruct ap as [| |s]; simpl; repeat constructor. apply IH.
  - destruct deps as [l|]; simpl; [|constructor].
    induction l as [|[k [|names|x]] xs IHl]; simpl; try constructor;
      try apply IH; apply IHl.
Qed.
End SchemaInduction.

Section NodeStructInduction.
Variable P : ASTNode -> Prop.
Hypothesis leaf : forall node, getChildNodes node = [] -> P node.
Hypothesis array : forall f items, Forall P items -> P (ArrayASTNode f items).
Hypothesis property :
  forall p, (forall v, value p = Some v -> P v) -> P (PropertyASTNode p).
Hypothesis object :
  forall f properties,
    Forall (fun p : Property => forall v, value p = Some v -> P v) properties ->
    P (ObjectASTNode f properties).

(** Induction on the tree, on the nodes a node owns. *)
Lemma ASTNode_owned_ind : forall node, P node.
Proof.
  fix IH 1. intros [f|f v|f r i v|s|f items|p|f props]; try (apply leaf; reflexivity).
  - apply array. induction items as [|x xs IHxs]; constructor; [apply IH|apply IHxs].
  - apply property. destruct p as [pf k [v|] co]; simpl; intros v' E; [|discriminate].
    injection E as E. rewrite <- E. apply IH.
  - apply object. induction props as [|x xs IHxs]; constructor; [|apply IHxs].
    destruct x as [pf k [v|] co]; simpl; intros v' E; [|discriminate].
    injection E as E. rewrite <- E. apply IH.
Qed.
End NodeStructInduction.

Lemma getValue_attached (this : ASTNode) :
  attached this = true -> exists v, getValue this = Ok v.
Proof.
  induction this as [node Hleaf|f items IH|p IH|f props IH] using ASTNode_owned_ind.
  - destruct node as [f|f v|f r i v|s|f items|p|f props]; simpl; eauto.
    + destruct items; [eauto|discriminate].
    + destruct props; [eauto|discriminate].
  - simpl. intros Hall.
    assert (forall acc, exists vs,
               forEach (fun item vs => let! v := getValue item in Ok (vs ++ [v])) items acc
               = Ok vs) as Hloop; [|destruct (Hloop []) as [vs ->]; simpl; eauto].
    induction IH as [|x xs Hx _ IHxs]; intros acc; simpl; [eauto|].
    simpl in Hall. apply andb_true_iff in Hall as [Hax Haxs].
    destruct (Hx Hax) as [vx ->]. simpl. now apply IHxs.
  - simpl. eauto.
  - simpl. intros Hall.
    match goal with |- context [forEach ?f props []] =>
      assert (forall acc, exists obj, forEach f props acc = Ok obj) as Hloop;
        [|destruct (Hloop []) as [obj ->]; simpl; eauto] end.
    induction IH as [|x xs Hx _ IHxs]; intros acc; simpl; [eauto|].
    simpl in Hall. apply andb_true_iff in Hall as [Hax Haxs].
    destruct (key x) as [k|] eqn:Hk; [|discriminate].
    destruct (value x) as [n|] eqn:Hn; simpl; [|now apply IHxs].
    apply andb_true_iff in Hax as [_ Hax].
    destruct (Hx n eq_refl Hax) as [vx ->]. simpl.
    destruct (truthy vx); simpl; now apply IHxs.
Qed.

Section SubSchemas.
Variable P : Schema -> Prop.
Variable schema : Schema.
Hypothesis H : Forall P (subSchemas schema).

Local Ltac part E :=
  revert H; unfold subSchemas; rewrite !Forall_app, E; simpl; rewrite ?Forall_cons;
  intros (? & ? & ? & ? & ? & ? & ? & ? & ?); intuition.

Lemma sub_allOf l : JsonSchema.allOf schema = Some l -> Forall P l.
Proof. intros E. part E. Qed.
Lemma sub_not s : JsonSchema.not schema = Some s -> P s.
Proof. intros E. part E. Qed.
Lemma sub_anyOf l : JsonSchema.anyOf schema = Some l -> Forall P l.
Proof. intros E. part E. Qed.
Lemma sub_oneOf l : JsonSchema.oneOf schema = Some l -> Forall P l.
Proof. intros E. part E. Qed.
Lemma sub_itemsArray l : JsonSchema.items schema = JsonSchema.ItemsArray l -> Forall P l.
Proof. intros E. part E. Qed.
Lemma sub_itemsSchema s : JsonSchema.items schema = JsonSchema.ItemsSchema s -> P s.
Proof. intros E. part E. Qed.
Lemma sub_properties l :
  JsonSchema.properties schema = Some l -> Forall (fun e => P (snd e)) l.
Proof. intros E. part E. now apply Forall_fmap. Qed.
Lemma sub_patternProperties l :
  JsonSchema.patternProperties schema = Some l -> Forall (fun e => P (snd e)) l.
Proof. intros E. part E. now apply Forall_fmap. Qed.
Lemma sub_additionalProperties s :
  JsonSchema.additionalProperties schema = JsonSchema.AdditionalSchema s -> P s.
Proof. intros E. part E. Qed.
Lemma sub_dependencies l :
  JsonSchema.dependencies schema = Some l ->
  Forall (fun e => forall s, snd e = JsonSchema.DependencySchema s -> P s) l.
Proof.
  intros E. revert H. unfold subSchemas. rewrite !Forall_app, E. simpl.
  intros (_ & _ & _ & _ & _ & _ & _ & _ & Hd). clear E.
  induction l as [|[k d] xs IH]; constructor.
  - simpl. intros s ->. now apply Forall_cons in Hd as [? _].
  - apply IH. destruct d; [exact Hd|exact Hd|now apply Forall_cons in Hd as [_ ?]].
Qed.
End SubSchemas.

Lemma forallb_Forall {A} (f : A -> bool) (l : list A) :
  forallb f l = true -> Forall (fun x => f x = true) l.
Proof.
  intros H. apply Forall_forall. intros x Hx.
  rewrite forallb_forall in H. now apply H, list_elem_of_In.
Qed.

Section Compilable.
Variable RegExp : string -> option (string -> bool).
Variable schema : Schema.
Hypothesis H : compilable RegExp schema = true.

Lemma compilable_parts :
  match JsonSchema.pattern schema with
  | Some p => p = ""%string \/ is_Some (RegExp p)
  | None => True
  end
  /\ from_option (Forall (fun e => is_Some (RegExp (fst e)))) True
                  (JsonSchema.patternProperties schema)
  /\ Forall (fun s => compilable RegExp s = true) (subSchemas schema).
Proof.
  revert H. destruct schema as [ty em allOf not anyOf oneOf en mo mi emi ma ema mil mal pa
                                items ai mii mai ui req props pprops ap map mip deps].
  unfold subSchemas. simpl. rewrite !andb_true_iff.
  intros (((((((((Hp & H1) & H2) & H3) & H4) & H5) & H6) & H7) & H8) & H9).
  split; [|split].
  - destruct pa as [p|]; [|exact I]. apply orb_true_iff in Hp as [Hp|Hp].
    + left. now apply String.eqb_eq.
    + right. now apply bool_decide_eq_true in Hp.
  - destruct pprops as [l|]; simpl in *; [|exact I].
    apply Forall_forall. intros e He. rewrite forallb_forall in H7.
    apply list_elem_of_In, H7, andb_true_iff in He as [He _].
    now apply bool_decide_eq_true in He.
  - repeat apply Forall_app_2.
    + destruct allOf; simpl in *; [|constructor]. now apply forallb_Forall.
    + destruct not; simpl in *; repeat constructor; assumption.
    + destruct anyOf; simpl in *; [|constructor]. now apply forallb_Forall.
    + destruct oneOf; simpl in *; [|constructor]. now apply forallb_Forall.
    + destruct items; simpl in *; repeat constructor; try assumption.
      now apply forallb_Forall.
    + destruct props as [l|]; simpl in *; [|constructor].
      apply Forall_fmap, Forall_forall. intros e He. rewrite forallb_forall in H6.
      now apply list_elem_of_In, H6 in He.
    + destruct pprops as [l|]; simpl in *; [|constructor].
      apply Forall_fmap, Forall_forall. intros e He. rewrite forallb_forall in H7.
      now apply list_elem_of_In, H7, andb_true_iff in He as [_ He].
    + destruct ap; simpl in *; repeat constructor; assumption.
    + destruct deps as [l|]; simpl in *; [|constructor].
      clear -H9. induction l as [|[k d] l IH]; simpl in *; [constructor|].
      apply andb_true_iff in H9 as [Hd Hl].
      destruct d; simpl; try constructor; auto.
Qed.
End Compilable.

Section Soundness.
Variable RegExp : string -> option (string -> bool).
Variable Good : TypeStore -> TypeStore -> Prop.
Variable Bad : Prop.
Hypothesis Good_refl : forall a, Good a a.
Hypothesis Good_trans : forall a b c, Good a b -> Good b c -> Good a c.
Hypothesis Good_reset :
  forall a b ref, Good a b \/ Good ({[ref]} ∪ a) b -> Good a (b ∖ {[ref]}).

Section Methods.
Variable v : Validate.

Lemma testAlternatives_sound (this : ASTNode) (alternatives : list Schema)
  (maxOneMatch : bool) (st : State) (types0 : TypeStore) :
  Forall (Sound Good Bad v) alternatives -> NodePre Bad this -> Good types0 (types st) ->
  Holds Bad (fun r => Good types0 (types (fst r)))
        (testAlternatives v this alternatives maxOneMatch st).
Proof.
  intros Hv Hpre Hst. unfold testAlternatives.
  eapply Holds_bind.
  - apply (Holds_forEach Bad (fun acc => Good types0 (fst (fst acc)))); [|exact Hst].
    eapply Forall_impl; [exact Hv|]. intros sub Hsub [[types' matches] best] Hacc.
    simpl in Hacc. eapply Holds_bind; [apply (Hsub this _ _ _ types' Hpre)|].
    intros sub' Hsub'. simpl. eauto.
  - intros [[types' matches] best] Hacc. simpl in Hacc.
    destruct best; simpl; exact Hacc.
Qed.

Local Ltac pure_step types0 H :=
  let st := fresh "st" in
  lazymatch goal with
  | |- Holds ?B ?Q (let x := ?e in @?k x) => change (let x := e in Holds B Q (k x))
  end;
  intro st; cbv beta;
  assert (Good types0 (types st)) as H
    by (subst st; repeat case_match; simpl; assumption || apply Good_refl);
  clearbody st.

Local Ltac bind_step types0 :=
  eapply (Holds_bind Bad (fun st : State => Good types0 (types st))).

Lemma Sound_step (sub : Schema) (this : ASTNode) (vr : VR)
  (ms : option (list IApplicableSchema)) (offset : Z) (types0 types1 : TypeStore) :
  Sound Good Bad v sub -> NodePre Bad this -> Good types0 types1 ->
  Post Good Bad types0 (v sub this vr ms offset types1).
Proof.
  intros Hs Hpre H. eapply Holds_mono; [apply Hs, Hpre|].
  intros st Hst. simpl in Hst. eapply Good_trans; eauto.
Qed.

Lemma ASTNode_validate_sound (schema : Schema) (this : ASTNode) (vr : VR)
  (ms : option (list IApplicableSchema)) (offset : Z) (types0 : TypeStore) :
  Forall (Sound Good Bad v) (subSchemas schema) -> NodePre Bad this ->
  Post Good Bad types0 (ASTNode_validate v schema this vr ms offset types0).
Proof.
  intros Hsub Hpre. unfold Post. cbv beta delta [ASTNode_validate].
  pure_step types0 H0.
  destruct (outside this offset); [exact H0|].
  pure_step types0 H1.
  bind_step types0.
  { destruct (JsonSchema.allOf schema) as [l|] eqn:E; [|exact H1].
    apply Holds_forEach; [|exact H1].
    eapply Forall_impl; [apply (sub_allOf _ _ Hsub _ E)|].
    intros sub Hs s Hgood. now apply Sound_step. }
  intros st1 H2. bind_step types0.
  { destruct (JsonSchema.not schema) as [sub|] eqn:E; [|exact H2].
    bind_step types0; [apply Sound_step; auto; apply (sub_not _ _ Hsub _ E)|].
    intros st' Hst'. simpl. repeat case_match; simpl; exact Hst'. }
  intros st2 H3. bind_step types0.
  { destruct (JsonSchema.anyOf schema) as [l|] eqn:E; [|exact H3].
    eapply Holds_bind;
      [apply (testAlternatives_sound this l false st2 types0); auto;
       apply (sub_anyOf _ _ Hsub _ E)|].
    intros [st' n] Hst'. exact Hst'. }
  intros st3 H4. bind_step types0.
  { destruct (JsonSchema.oneOf schema) as [l|] eqn:E; [|exact H4].
    eapply Holds_bind;
      [apply (testAlternatives_sound this l true st3 types0); auto;
       apply (sub_oneOf _ _ Hsub _ E)|].
    intros [st' n] Hst'. exact Hst'. }
  intros st4 H5. bind_step types0.
  { destruct (JsonSchema.enum schema) as [l|] eqn:E; [|exact H5].
    eapply Holds_bind with (Q := fun _ => True).
    - destruct Hpre as [HBad|Hatt].
      + destruct (getValue this); simpl; auto.
      + destruct (getValue_attached this Hatt) as [x ->]. exact I.
    - intros x _. destruct (notIndexOf l x); simpl; exact H5. }
  intros st5 H6. simpl. exact H6.
Qed.

Local Ltac pull_let :=
  lazymatch goal with
  | |- Holds ?B ?Q (let x := ?e in @?k x) => change (let x := e in Holds B Q (k x))
  end;
  intro; cbv beta.

Lemma NumberASTNode_validate_sound (schema : Schema) (this : ASTNode) (ref : nat)
  (isInteger : bool) (val : JSNumber) (vr : VR) (ms : option (list IApplicableSchema))
  (offset : Z) (types0 : TypeStore) :
  Forall (Sound Good Bad v) (subSchemas schema) -> NodePre Bad this ->
  Post Good Bad types0 (NumberASTNode_validate v schema this ref isInteger val vr ms offset types0).
Proof.
  intros Hsub Hpre. unfold Post. cbv beta delta [NumberASTNode_validate].
  destruct (outside this offset); [apply Good_refl|].
  pull_let. pull_let.
  eapply Holds_bind; [apply (ASTNode_validate_sound schema this vr ms offset types1 Hsub Hpre)|].
  intros st Hst. simpl in Hst.
  assert (Good types0 (types st ∖ {[ref]})) as H1.
  { apply Good_reset. subst types1. destruct (typeIsInteger && isInteger); auto. }
  set (st1 := mkState (types st ∖ {[ref]}) (result st) (trace st)).
  change (Good types0 (types st1)) in H1. clearbody st1.
  lazymatch goal with
  | |- Holds ?B ?Q (let x := ?e in @?k x) => change (Holds B Q (k st1))
  end. cbv beta.
  pure_step types0 H2. pure_step types0 H3. pure_step types0 H4. exact H4.
Qed.

Lemma StringASTNode_validate_sound (schema : Schema) (this : ASTNode) (val : string)
  (vr : VR) (ms : option (list IApplicableSchema)) (offset : Z) (types0 : TypeStore) :
  Forall (Sound Good Bad v) (subSchemas schema) -> NodePre Bad this ->
  Bad \/ compilable RegExp schema = true ->
  Post Good Bad types0 (StringASTNode_validate RegExp v schema this val vr ms offset types0).
Proof.
  intros Hsub Hpre Hpat. unfold Post. cbv beta delta [StringASTNode_validate].
  destruct (outside this offset); [apply Good_refl|].
  bind_step types0; [apply (ASTNode_validate_sound schema this vr ms offset types0 Hsub Hpre)|].
  intros st Hst. pull_let. pure_step types0 H1. pure_step types0 H2.
  destruct (JsonSchema.pattern schema) as [p|] eqn:Ep; [|exact H2].
  destruct (String.eqb_spec p ""); [exact H2|].
  destruct (RegExp p) as [test|] eqn:Er.
  - destruct (negb (test val)); exact H2.
  - simpl. destruct Hpat as [HBad|Hc]; [exact HBad|].
    apply compilable_parts in Hc as [Hc _]. rewrite Ep, Er in Hc.
    destruct Hc as [?|[? ?]]; congruence.
Qed.

Lemma validateChild_sound (sub : Schema) (child : ASTNode) (offset : Z) (st : State)
  (types0 : TypeStore) :
  Sound Good Bad v sub -> NodePre Bad child -> Good types0 (types st) ->
  Post Good Bad types0 (validateChild v sub child offset st).
Proof.
  intros Hs Hpre H. unfold validateChild, Post.
  bind_step types0; [now apply Sound_step|].
  intros st' Hst'. exact Hst'.
Qed.

Lemma NodePre_item (f : NodeFields) (items : list ASTNode) (item : ASTNode) :
  NodePre Bad (ArrayASTNode f items) -> item ∈ items -> NodePre Bad item.
Proof.
  intros [HBad|Hatt] Hin; [now left|right]. simpl in Hatt.
  rewrite forallb_forall in Hatt. now apply Hatt, list_elem_of_In.
Qed.

Lemma ArrayASTNode_validate_sound (schema : Schema) (f : NodeFields)
  (items : list ASTNode) (vr : VR) (ms : option (list IApplicableSchema))
  (offset : Z) (types0 : TypeStore) :
  let this := ArrayASTNode f items in
  Forall (Sound Good Bad v) (subSchemas schema) -> NodePre Bad this ->
  Post Good Bad types0 (ArrayASTNode_validate v schema this items vr ms offset types0).
Proof.
  intros this Hsub Hpre. unfold Post. cbv beta delta [ArrayASTNode_validate].
  destruct (outside this offset); [apply Good_refl|].
  bind_step types0; [apply (ASTNode_validate_sound schema this vr ms offset types0 Hsub Hpre)|].
  intros st Hst. bind_step types0.
  { destruct (JsonSchema.items schema) as [|l|sub] eqn:E; [exact Hst| |].
    - bind_step types0.
      + apply Holds_forEachIndex; [|exact Hst].
        eapply Forall_impl; [apply (sub_itemsArray _ _ Hsub _ E)|].
        intros sub Hs i s Hgood. destruct (items !! i) as [item|] eqn:Ei.
        * apply validateChild_sound; auto.
          eapply NodePre_item; [exact Hpre|]. eapply list_elem_of_lookup_2, Ei.
        * destruct (_ <=? _)%nat; exact Hgood.
      + intros st1 H1. repeat case_match; exact H1.
    - apply Holds_forEach; [|exact Hst].
      apply Forall_forall. intros item Hitem s Hgood.
      apply validateChild_sound; auto; [apply (sub_itemsSchema _ _ Hsub _ E)|].
      eapply NodePre_item; eauto. }
  intros st1 H1. pure_step types0 H2. pure_step types0 H3.
  destruct (bool_decide _); [|exact H3].
  eapply Holds_bind with (Q := fun _ => True).
  - apply Holds_forEach; [|exact I].
    apply Forall_forall. intros item Hitem vs _.
    destruct (NodePre_item _ _ _ Hpre Hitem) as [HBad|Hatt].
    + destruct (getValue item); simpl; auto.
    + destruct (getValue_attached item Hatt) as [x ->]. exact I.
  - intros values _. destruct (duplicates values); exact H3.
Qed.

Lemma ChildPre_NodePre (child : ASTNode) : ChildPre Bad child -> NodePre Bad child.
Proof. intros [?|[? _]]; [now left|now right]. Qed.

Lemma seenKeys_sound (f : NodeFields) (properties : list Property) :
  NodePre Bad (ObjectASTNode f properties) ->
  Holds Bad (fun acc => SeenPre Bad (fst acc))
    (forEach (fun (node : Property) '(seenKeys, unprocessedProperties) =>
                match key node with
                | Some k =>
                    Ok (<[s_value k := value node]> seenKeys,
                        unprocessedProperties ++ [s_value k])
                | None => Throw TypeError
                end)
             properties ((∅ : gmap string (option ASTNode)), [])).
Proof.
  intros Hpre. apply Holds_forEach.
  - apply Forall_forall. intros p Hp [seenKeys un] Hseen.
    destruct (key p) as [k|] eqn:Hk; simpl.
    + intros name child. unfold seen. rewrite lookup_insert.
      case_decide; [|apply Hseen]. simpl. intros Hv.
      destruct Hpre as [HBad|Hatt]; [now left|right]. simpl in Hatt.
      rewrite forallb_forall in Hatt. apply list_elem_of_In, Hatt in Hp.
      rewrite Hk, Hv in Hp. apply andb_true_iff in Hp as [Hparent Hchild].
      apply bool_decide_eq_true in Hparent. eauto.
    + destruct Hpre as [HBad|Hatt]; [exact HBad|]. simpl in Hatt.
      rewrite forallb_forall in Hatt. apply list_elem_of_In, Hatt in Hp.
      rewrite Hk in Hp. discriminate.
  - simpl. intros name child. unfold seen. rewrite lookup_empty. discriminate.
Qed.

Lemma fold_left_types {A} (g : State -> A -> State) (l : list A) (st : State) :
  (forall s x, types (g s x) = types s) -> types (fold_left g l st) = types st.
Proof.
  intros Hg. revert st. induction l as [|x xs IH]; intros st; simpl; [reflexivity|].
  now rewrite IH, Hg.
Qed.

Lemma processProperty_sound (seenKeys : gmap string (option ASTNode)) (offset : Z)
  (propertyName : string) (prop : Schema) (acc : State * list string)
  (types0 : TypeStore) :
  Sound Good Bad v prop -> SeenPre Bad seenKeys -> Good types0 (types (fst acc)) ->
  Holds Bad (fun acc' => Good types0 (types (fst acc')))
        (processProperty v seenKeys offset propertyName prop acc).
Proof.
  intros Hs Hseen Hgood. destruct acc as [st un]. unfold processProperty.
  destruct (seen seenKeys propertyName) as [child|] eqn:E; [|exact Hgood].
  eapply Holds_bind;
    [apply (validateChild_sound prop child offset st types0); auto|].
  - eapply ChildPre_NodePre, Hseen, E.
  - intros st' Hst'. exact Hst'.
Qed.

Lemma ObjectASTNode_validate_sound (schema : Schema) (f : NodeFields)
  (properties : list Property) (vr : VR) (ms : option (list IApplicableSchema))
  (offset : Z) (types0 : TypeStore) :
  let this := ObjectASTNode f properties in
  Forall (Sound Good Bad v) (subSchemas schema) -> NodePre Bad this ->
  Bad \/ compilable RegExp schema = true ->
  Post Good Bad types0 (ObjectASTNode_validate RegExp v schema this properties vr ms offset types0).
Proof.
  intros this Hsub Hpre Hpat. unfold Post. cbv beta delta [ObjectASTNode_validate].
  destruct (outside this offset); [apply Good_refl|].
  bind_step types0; [apply (ASTNode_validate_sound schema this vr ms offset types0 Hsub Hpre)|].
  intros st Hst.
  eapply Holds_bind; [apply (seenKeys_sound f properties Hpre)|].
  intros [seenKeys un] Hseen. simpl in Hseen.
  lazymatch goal with
  | |- Holds ?B ?Q (let x := ?e in @?k x) => change (let x := e in Holds B Q (k x))
  end.
  intros st1. cbv beta.
  assert (Good types0 (types st1)) as H1.
  { subst st1. destruct (JsonSchema.required schema); [|exact Hst].
    rewrite fold_left_types; [exact Hst|]. intros; repeat case_match; reflexivity. }
  clearbody st1.
  eapply (Holds_bind Bad (fun acc : State * list string => Good types0 (types (fst acc)))).
  { destruct (JsonSchema.properties schema) as [l|] eqn:E; [|exact H1].
    apply (Holds_forEach Bad (fun acc : State * list string =>
                                Good types0 (types (fst acc)))); [|exact H1].
    eapply Forall_impl; [apply (sub_properties _ _ Hsub _ E)|].
    intros [name prop] Hs acc Hacc. now apply processProperty_sound. }
  intros [st2 un2] H2. simpl in H2.
  eapply (Holds_bind Bad (fun acc : State * list string => Good types0 (types (fst acc)))).
  { destruct (JsonSchema.patternProperties schema) as [l|] eqn:E; [|exact H2].
    apply (Holds_forEach Bad (fun acc : State * list string =>
                                Good types0 (types (fst acc)))); [|exact H2].
    assert (Forall (fun e => Bad \/ is_Some (RegExp (fst e))) l) as Hre.
    { destruct Hpat as [HBad|Hc]; [apply Forall_forall; auto|].
      apply compilable_parts in Hc as (_ & Hc & _). rewrite E in Hc. simpl in Hc.
      eapply Forall_impl; [exact Hc|]. auto. }
    pose proof (sub_patternProperties _ _ Hsub _ E) as Hs.
    apply Forall_forall. intros [pat prop] Hin [st' un'] Hacc.
    rewrite Forall_forall in Hre, Hs.
    specialize (Hre _ Hin). specialize (Hs _ Hin). simpl in *.
    destruct (RegExp pat) as [test|].
    - apply (Holds_forEach Bad (fun acc : State * list string =>
                                  Good types0 (types (fst acc)))); [|exact Hacc].
      apply Forall_forall. intros name _ acc Hacc'.
      destruct (test name); [|exact Hacc']. now apply processProperty_sound.
    - simpl. destruct Hre as [?|[? ?]]; [assumption|discriminate]. }
  intros [st3 un3] H3. simpl in H3.
  bind_step types0.
  { destruct (JsonSchema.additionalProperties schema) as [| |sub] eqn:E; [exact H3| |].
    - apply Holds_forEach; [|exact H3].
      apply Forall_forall. intros name _ s Hgood.
      destruct (seen seenKeys name) as [child|] eqn:Ec; [|exact Hgood].
      destruct (Hseen _ _ Ec) as [HBad|[_ [r Hr]]].
      + repeat case_match; simpl; auto.
      + rewrite Hr. exact Hgood.
    - apply Holds_forEach; [|exact H3].
      apply Forall_forall. intros name _ s Hgood.
      destruct (seen seenKeys name) as [child|] eqn:Ec; [|exact Hgood].
      apply validateChild_sound; auto; [apply (sub_additionalProperties _ _ Hsub _ E)|].
      eapply ChildPre_NodePre, Hseen, Ec. }
  intros st4 H4. pure_step types0 H5. pure_step types0 H6.
  destruct (JsonSchema.dependencies schema) as [l|] eqn:E; [|exact H6].
  apply Holds_forEach; [|exact H6].
  eapply Forall_impl; [apply (sub_dependencies _ _ Hsub _ E)|].
  intros [k d] Hs s Hgood. simpl in Hs.
  destruct (seen seenKeys k); [|exact Hgood].
  destruct d as [|names|sub]; [exact Hgood| |].
  - simpl. rewrite fold_left_types; [exact Hgood|].
    intros; repeat case_match; reflexivity.
  - apply validateChild_sound; auto.
Qed.

End Methods.

Lemma validate_unfold (schema : Schema) (this : ASTNode) (validationResult : VR)
  (matchingSchemas : option (list IApplicableSchema)) (offset : Z) (types0 : TypeStore) :
  validate RegExp schema this validationResult matchingSchemas offset types0 =
  match this with
  | NullASTNode _ | BooleanASTNode _ _ =>
      ASTNode_validate (validate RegExp) schema this validationResult matchingSchemas
                       offset types0
  | NumberASTNode _ ref isInteger v =>
      NumberASTNode_validate (validate RegExp) schema this ref isInteger v
                             validationResult matchingSchemas offset types0
  | StringASTNode s =>
      StringASTNode_validate RegExp (validate RegExp) schema this (s_value s)
                             validationResult matchingSchemas offset types0
  | ArrayASTNode _ items =>
      ArrayASTNode_validate (validate RegExp) schema this items
                            validationResult matchingSchemas offset types0
  | PropertyASTNode p =>
      if outside this offset then Ok (mkState types0 validationResult matchingSchemas)
      else
        match value p with
        | Some v => validate RegExp schema v validationResult matchingSchemas offset types0
        | None => Ok (mkState types0 validationResult matchingSchemas)
        end
  | ObjectASTNode _ properties =>
      ObjectASTNode_validate RegExp (validate RegExp) schema this properties
                             validationResult matchingSchemas offset types0
  end.
Proof. destruct schema, this; reflexivity. Qed.

(** Every call of [validate] leaves the [type] fields in a state related
    to the one it found, and throws only where [Bad] allows it. *)
Lemma validate_sound (schema : Schema) :
  Bad \/ compilable RegExp schema = true -> Sound Good Bad (validate RegExp) schema.
Proof.
  induction schema as [schema IH] using Schema_sub_ind. intros Hpat.
  assert (Forall (Sound Good Bad (validate RegExp)) (subSchemas schema)) as Hsub.
  { destruct Hpat as [HBad|Hc].
    - eapply Forall_impl; [exact IH|]. auto.
    - apply compilable_parts in Hc as (_ & _ & Hc).
      rewrite Forall_forall in *. intros sub Hin. apply IH; auto. }
  intros this.
  induction this as [node Hleaf|f items _|p IHp|f props _] using ASTNode_owned_ind;
    intros vr ms offset types0 Hpre; rewrite validate_unfold.
  - destruct node as [f|f b|f r i n|s|f items|p|f props].
    + now apply ASTNode_validate_sound.
    + now apply ASTNode_validate_sound.
    + now apply NumberASTNode_validate_sound.
    + now apply StringASTNode_validate_sound.
    + now apply ArrayASTNode_validate_sound.
    + simpl in Hleaf. destruct (value p); discriminate.
    + now apply ObjectASTNode_validate_sound.
  - now apply ArrayASTNode_validate_sound.
  - destruct (outside _ _); [apply Good_refl|].
    destruct (value p) as [c|] eqn:Ec; [|apply Good_refl].
    apply (IHp c eq_refl). destruct Hpre as [HBad|Hatt]; [now left|right].
    simpl in Hatt. rewrite Ec in Hatt. destruct (key p); [|discriminate].
    now apply andb_true_iff in Hatt as [_ ?].
  - now apply ObjectASTNode_validate_sound.
Qed.

End Soundness.

Section Alternatives.
Import ValidationResult.
Variable v : Validate.
Variable this : ASTNode.





End Alternatives.

(** ** Offsets, alternatives, frame and totality of [validate] *)

Section EngineProperties.
Import ValidationResult.
Variable RegExp : string -> option (string -> bool).

(** A node that does not contain the offset is left without any effect. *)
Lemma validate_outside (schema : Schema) (this : ASTNode) (vr : VR)
  (ms : option (list IApplicableSchema)) (offset : Z) (types0 : TypeStore) :
  outside this offset = true ->
  validate RegExp schema this vr ms offset types0 = Ok (mkState types0 vr ms).
Proof.
  intros H. rewrite validate_unfold.
  destruct this; unfold ASTNode_validate, NumberASTNode_validate, StringASTNode_validate,
    ArrayASTNode_validate, ObjectASTNode_validate; now rewrite H.
Qed.

(** C7. A call of [validate] that returns leaves every Number node with
    the type it had: only the result and the trace carry its effect, and
    the same call made again returns the same state. *)
Theorem validate_frame (schema : Schema) (this : ASTNode) (vr : VR)
  (ms : option (list IApplicableSchema)) (offset : Z) (st : State) :
  validate RegExp schema this vr ms offset ∅ = Ok st ->
  types st = ∅ /\ validate RegExp schema this vr ms offset (types st) = Ok st.
Proof.
  intros H.
  assert (types st ⊆ ∅) as Hsub.
  { pose proof (validate_sound RegExp (fun a b => b ⊆ a) True) as Hs.
    unfold Sound, Post, NodePre in Hs.
    assert (forall a : TypeStore, a ⊆ a) as Hrefl by set_solver.
    assert (forall a b c : TypeStore, b ⊆ a -> c ⊆ b -> c ⊆ a) as Htrans by set_solver.
    assert (forall (a b : TypeStore) (ref : nat),
               b ⊆ a \/ b ⊆ {[ref]} ∪ a -> b ∖ {[ref]} ⊆ a) as Hreset.
    { intros a b ref Hab x Hx. apply elem_of_difference in Hx as [Hb Hne].
      destruct Hab as [Hab|Hab]; apply Hab in Hb; [exact Hb|].
      apply elem_of_union in Hb as [Hb|Hb]; [contradiction|exact Hb]. }
    specialize (Hs Hrefl Htrans Hreset schema (or_introl I)
                   this vr ms offset ∅ (or_introl I)).
    rewrite H in Hs. exact Hs. }
  assert (types st = ∅) as E by set_solver.
  split; [exact E|]. now rewrite E.
Qed.


Lemma forEach_keys (properties : list Property)
  (acc : gmap string (option ASTNode) * list string) :
  hasKeys properties = true ->
  exists acc',
    forEach (fun (node : Property) '(seenKeys, unprocessedProperties) =>
               match key node with
               | Some k =>
                   Ok (<[s_value k := value node]> seenKeys,
                       unprocessedProperties ++ [s_value k])
               | None => Throw TypeError
               end)
            properties acc = Ok acc'.
Proof.
  revert acc. induction properties as [|p ps IH]; intros [seenKeys un] H; simpl.
  - eauto.
  - simpl in H. apply andb_true_iff in H as [Hp Hps].
    apply bool_decide_eq_true in Hp as [k Hk]. rewrite Hk. simpl. now apply IH.
Qed.

(** C10. A limit keyword whose value is 0 constrains nothing: a string, an
    array or an object validated against the schema holding only that
    keyword comes back with the result it was given, whatever its length
    or count. *)
Theorem zero_limit (vr : VR) (ms : option (list IApplicableSchema)) (offset : Z)
  (types0 : TypeStore) (s : StringFields) (f f' : NodeFields) (items : list ASTNode)
  (properties : list Property) :
  hasKeys properties = true ->
  let run schema this := validate RegExp schema this vr ms offset types0 in
  quiet vr types0 (run (limits zero None None None None None) (StringASTNode s))
  /\ quiet vr types0 (run (limits None zero None None None None) (StringASTNode s))
  /\ quiet vr types0 (run (limits None None zero None None None) (ArrayASTNode f items))
  /\ quiet vr types0 (run (limits None None None zero None None) (ArrayASTNode f items))
  /\ quiet vr types0 (run (limits None None None None zero None)
                          (ObjectASTNode f' properties))
  /\ quiet vr types0 (run (limits None None None None None zero)
                          (ObjectASTNode f' properties)).
Proof.
  intros Hkeys. cbv zeta.
  repeat split; rewrite validate_unfold;
    unfold StringASTNode_validate, ArrayASTNode_validate, ObjectASTNode_validate,
      ASTNode_validate;
    destruct (outside _ _); simpl; auto;
    destruct (forEach_keys properties (∅, []) Hkeys) as [[seenKeys un] ->]; simpl; auto.
Qed.

End EngineProperties.

(** ** Builders, and the engine on sample inputs *)

Section Builders.

(** C9. [addItem] and [addProperty] return [true] exactly for an object,
    which they append; [setKey] and [setValue] return [false] for [null]
    but [true] for [undefined], although nothing is stored. *)
Theorem builders_on_undefined (items : list ASTNode) (properties : list Property)
  (this : Property) :
  (forall item, addItem items item
                = match item with
                  | Obj a => (items ++ [a], true)
                  | _ => (items, false)
                  end)
  /\ (forall p, addProperty properties p
                = match p with
                  | Obj a => (properties ++ [a], true)
                  | _ => (properties, false)
                  end)
  /\ snd (setKey this Null) = false
  /\ setKey this Undefined
     = (mkProperty (p_fields this) None (value this) (colonOffset this), true)
  /\ setValue this Null
     = Ok (mkProperty (p_fields this) (key this) None (colonOffset this), false)
  /\ setValue this Undefined
     = Ok (mkProperty (p_fields this) (key this) None (colonOffset this), true).
Proof. repeat split; intros []; reflexivity. Qed.

End Builders.

Section Samples.
Import Sample.

(** C5, on the object [{k: v}] and an offset inside the value. *)
Lemma getNodeFromOffset_deepest_witness :
  invariant document = true
  /\ getNodeFromOffset document 7 = Ok (Some valueV)
  /\ contains valueV 7 false = true
  /\ forall child, Some child ∈ getChildNodes valueV -> contains child 7 false = false.
Proof.
  split; [reflexivity|]. split; [reflexivity|].
  apply (getNodeFromOffset_deepest 7 document valueV); reflexivity.
Defined.

(** C1. With the offset inside the first item of [[a, 5]], a schema
    reached through [allOf] leaves the second item alone, while the same
    schema reached through [anyOf] or [oneOf] validates it: the
    alternatives are validated without the offset. *)
Theorem alternatives_drop_offset :
  contains five 2 false = false
  /\ warningsOf (run (allOfOnly [itemsOnly (typed "string")]) pair 2) = Some []
  /\ warningsOf (run (anyOfOnly [itemsOnly (typed "string")]) pair 2)
     = Some [typeMismatch 5 7 "string"]
  /\ warningsOf (run (oneOfOnly [itemsOnly (typed "string")]) pair 2)
     = Some [typeMismatch 5 7 "string"].
Proof. repeat split; vm_compute; reflexivity. Qed.

(** C8. On the integer [5] and under [type: "integer"], the sub-schemas
    [{type: "number"}] and [{type: "integer"}] of an [allOf] yield a
    warning in one order and none in the other. *)
Theorem allOf_order_matters :
  let integer l := typedAllOf (JsonSchema.TypeString "integer") (Some l) in
  warningsOf (run (integer [typed "number"; typed "integer"]) five (-1))
  = Some [typeMismatch 5 7 "number"]
  /\ warningsOf (run (integer [typed "integer"; typed "number"]) five (-1)) = Some [].
Proof. split; vm_compute; reflexivity. Qed.


Lemma validate_frame_witness :
  exists st,
    run (typed "integer") five (-1) = Ok st
    /\ types st = ∅
    /\ validate RegExp (typed "integer") five ValidationResult.new None (-1) (types st)
       = Ok st.
Proof.
  eexists. split; [vm_compute; reflexivity|].
  apply (validate_frame RegExp (typed "integer") five). vm_compute. reflexivity.
Defined.

Lemma zero_limit_witness :
  quiet ValidationResult.new ∅
        (validate RegExp (limits None None None zero None None) pair
                  ValidationResult.new None (-1) ∅).
Proof.
  apply (zero_limit RegExp ValidationResult.new None (-1) ∅ keyK (at_ 0 10 NoParent)
                    (at_ 0 20 NoParent) [letter; five] [entry]).
  reflexivity.
Defined.

End Samples.

(** ** Further properties of the node model *)

Section LookupEndInclusive.

Variable offset : Z.

Lemma findNodeEndInclusive_unfold (node : ASTNode) :
  findNodeEndInclusive offset node =
  if (start node <=? offset) && (offset <=? end_ node)
  then findInChildren (findNodeEndInclusive offset) offset (getChildNodes node) node
  else Ok None.
Proof.
  destruct node as [f|f v|f r i v|s|f items|p|f props]; unfold start, end_; simpl.
  1-4: destruct ((_ <=? offset) && (offset <=? _)); reflexivity.
  - destruct ((f_start f <=? offset) && (offset <=? f_end f)); [|reflexivity].
    generalize (ArrayASTNode f items) as node. intros node.
    induction items as [|x xs IH]; simpl; [reflexivity|].
    fold (start x).
    destruct (start x <=? offset); [|reflexivity].
    destruct (findNodeEndInclusive offset x) as [[found|]|e]; simpl; auto.
  - destruct ((f_start (p_fields p) <=? offset) && (offset <=? f_end (p_fields p)));
      [|reflexivity].
    destruct p as [pf [k|] [v|] co]; simpl; reflexivity.
  - destruct ((f_start f <=? offset) && (offset <=? f_end f)); [|reflexivity].
    generalize (ObjectASTNode f props) as node. intros node.
    unfold fmap.
    induction props as [|x xs IH]; simpl; [reflexivity|].
    change (start (PropertyASTNode x)) with (f_start (p_fields x)).
    destruct (f_start (p_fields x) <=? offset) eqn:Hx; [|reflexivity].
    rewrite IH. reflexivity.
Qed.

(** The loop over the children, for any search [find] and any notion
    [holds] of containing the offset that a child starting beyond the
    offset fails and that [find] answers [null] only where it fails. *)
Lemma findInChildren_deepest (find : ASTNode -> Result (option ASTNode))
  (holds : ASTNode -> bool) (Q : ASTNode -> Prop) (children : list (option ASTNode))
  (node found : ASTNode) :
  (forall child, find child = Ok None -> holds child = false) ->
  (forall child, offset < start child -> holds child = false) ->
  Forall (from_option (fun child => forall r, find child = Ok (Some r) -> Q r) True)
         children ->
  sortedStarts (childStarts children) = true ->
  findInChildren find offset children node = Ok (Some found) ->
  Q found \/ (found = node /\ forall child, Some child ∈ children -> holds child = false).
Proof.
  intros Hnull Hlater.
  induction children as [|[child|] rest IH]; simpl; intros HQ Hs H.
  - right. split; [congruence|]. intros c Hc. inversion Hc.
  - inversion HQ as [|? ? Hchild Hrest]; subst. simpl in Hchild.
    unfold childStarts in Hs. simpl in Hs. fold (childStarts rest) in Hs.
    destruct (start child <=? offset) eqn:Hstart.
    + destruct (find child) as [[r|]|e] eqn:Hfind; simpl in H; try discriminate.
      * left. inversion H; subst. now apply Hchild.
      * destruct (IH Hrest (sortedStarts_tail _ _ Hs) H) as [HQf|[-> Hmiss]]; [now left|].
        right. split; [reflexivity|]. intros c Hc.
        apply elem_of_cons in Hc as [Hc|Hc]; [|now apply Hmiss].
        injection Hc as ->. now apply Hnull.
    + right. split; [congruence|]. apply Z.leb_gt in Hstart.
      intros c Hc. apply Hlater.
      apply elem_of_cons in Hc as [Hc|Hc]; [injection Hc as ->; exact Hstart|].
      apply sortedStarts_head in Hs. rewrite Forall_forall in Hs.
      assert (start child <= start c); [|lia].
      apply Hs. unfold childStarts. apply list_elem_of_fmap. exists c. split; [reflexivity|].
      apply list_elem_of_omap. exists (Some c). split; [exact Hc|reflexivity].
  - discriminate.
Qed.

Lemma findNodeEndInclusive_null (node : ASTNode) :
  findNodeEndInclusive offset node = Ok None -> spans offset node = false.
Proof.
  rewrite findNodeEndInclusive_unfold. unfold spans.
  destruct ((start node <=? offset) && (offset <=? end_ node)); [|reflexivity].
  intros H. exfalso. revert H. generalize (getChildNodes node) as children.
  induction children as [|[child|] rest IH]; simpl; try discriminate.
  destruct (start child <=? offset); [|discriminate].
  destruct (findNodeEndInclusive offset child) as [[found|]|e]; simpl; auto; discriminate.
Qed.

Lemma findNodeEndInclusive_deepest (node : ASTNode) :
  invariant node = true ->
  forall found, findNodeEndInclusive offset node = Ok (Some found) ->
  spans offset found = true
  /\ forall child, Some child ∈ getChildNodes found -> spans offset child = false.
Proof.
  induction node as [node IH] using ASTNode_children_ind.
  intros Hinv found. rewrite findNodeEndInclusive_unfold.
  fold (spans offset node).
  destruct (spans offset node) eqn:Hin; [|discriminate].
  intros H. destruct (invariant_children node Hinv) as [Hchildren Hs].
  eapply (findInChildren_deepest (findNodeEndInclusive offset)
            (fun n => spans offset n)
            (fun r => spans offset r = true
                      /\ forall child, Some child ∈ getChildNodes r -> spans offset child = false))
    in H; [| | | |exact Hs].
  - destruct H as [H|[-> Hmiss]]; [exact H|]. split; [exact Hin|exact Hmiss].
  - apply findNodeEndInclusive_null.
  - intros child Hlt. apply andb_false_iff. left. now apply Z.leb_gt.
  - clear -IH Hchildren. induction (getChildNodes node) as [|[c|] cs IHcs];
      constructor; inversion IH; inversion Hchildren; subst; simpl in *; auto.
Qed.

(** X1. The end-inclusive lookup, on a tree satisfying the invariant: the node
    it returns has the offset in its range, right bound included, and none
    of its children has. *)
Theorem getNodeFromOffsetEndInclusive_deepest (root found : ASTNode) :
  invariant root = true ->
  getNodeFromOffsetEndInclusive root offset = Ok (Some found) ->
  contains found offset true = true
  /\ forall child, Some child ∈ getChildNodes found -> spans offset child = false.
Proof.
  intros Hinv H. destruct (findNodeEndInclusive_deepest root Hinv found H) as [Hf Hc].
  split; [|exact Hc].
  apply andb_true_iff in Hf as [Hs He]. apply Z.leb_le in Hs, He.
  unfold contains. simpl.
  destruct (Z.ltb_spec offset (end_ found)).
  - apply Z.leb_le in Hs. now rewrite Hs.
  - assert (offset = end_ found) as -> by lia. rewrite Z.eqb_refl. apply orb_true_r.
Qed.

End LookupEndInclusive.

Section LookupMore.

Variable offset : Z.

Lemma inTree_trans (a b c : ASTNode) : inTree a b -> inTree b c -> inTree a c.
Proof.
  intros Hab Hbc. induction Hbc as [|p ch Hp IH Hin]; [exact Hab|].
  eapply inTree_child; eauto.
Qed.

Lemma findInChildren_cases (find : ASTNode -> Result (option ASTNode))
  (children : list (option ASTNode)) (node found : ASTNode) :
  findInChildren find offset children node = Ok (Some found) ->
  found = node \/ exists child, Some child ∈ children /\ find child = Ok (Some found).
Proof.
  induction children as [|[child|] rest IH]; simpl; intros H.
  - left. congruence.
  - destruct (start child <=? offset); [|left; congruence].
    destruct (find child) as [[r|]|e] eqn:Hfind; simpl in H; try discriminate.
    + right. exists child. split; [left|congruence].
    + destruct (IH H) as [?|(c & Hc & Hf)]; [now left|].
      right. exists c. split; [now right|exact Hf].
  - discriminate.
Qed.

Lemma findNode_inTree (node : ASTNode) :
  forall found, findNode offset node = Ok (Some found) -> inTree node found.
Proof.
  induction node as [node IH] using ASTNode_children_ind.
  intros found. rewrite findNode_unfold.
  destruct ((start node <=? offset) && (offset <? end_ node)); [|discriminate].
  intros H. apply findInChildren_cases in H as [->|(child & Hin & Hf)]; [constructor|].
  rewrite Forall_forall in IH. specialize (IH _ Hin). simpl in IH.
  eapply inTree_trans; [|apply IH, Hf].
  eapply inTree_child; [constructor|exact Hin].
Qed.

(** X2. [getNodeFromOffset] answers [null] exactly when the root does not
    contain the offset; the node it answers otherwise is a node of the
    tree. *)
Theorem getNodeFromOffset_in_tree (root : ASTNode) :
  (getNodeFromOffset root offset = Ok None <-> contains root offset false = false)
  /\ (forall found, getNodeFromOffset root offset = Ok (Some found) -> inTree root found).
Proof.
  split; [split|].
  - apply findNode_null.
  - unfold getNodeFromOffset. rewrite findNode_unfold. unfold contains. simpl.
    rewrite orb_false_r. now intros ->.
  - apply findNode_inTree.
Qed.

End LookupMore.

Section Visit.

Context {St : Type}.
Variable visitor : ASTNode -> St -> bool * St.

Lemma visitList_app (l1 l2 : list ASTNode) (s : St) :
  visitList visitor (l1 ++ l2) s =
  let '(ok, s') := visitList visitor l1 s in
  if ok then visitList visitor l2 s' else (false, s').
Proof.
  revert s. induction l1 as [|x xs IH]; intros s; simpl.
  - now destruct (visitList visitor l2 s).
  - destruct (visitor x s) as [[] s']; [apply IH|reflexivity].
Qed.

(** X3. [visit] is an early-exit search in pre-order: on a tree whose
    properties all have a key and a value, it calls the visitor on the
    nodes of the tree, a node before the nodes below it, and stops at the
    first node for which the visitor answers [false]; its answer tells
    whether the visitor accepted every node. *)
Theorem visit_preorder (this : ASTNode) :
  complete this = true ->
  forall s, visit visitor this s = Ok (visitList visitor (preorder this) s).
Proof.
  induction this as [node Hleaf|f items IH|p IH|f props IH] using ASTNode_owned_ind.
  - destruct node as [f|f v|f r i v|s0|f items|p|f props]; simpl; intros _ s;
      try (destruct (visitor _ s) as [[] ?]; reflexivity).
    + destruct items; [|discriminate]. simpl.
      destruct (visitor _ s) as [[] ?]; reflexivity.
    + simpl in Hleaf. destruct (value p); discriminate.
    + destruct props; [|discriminate]. simpl.
      destruct (visitor _ s) as [[] ?]; reflexivity.
  - simpl. intros Hall s. destruct (visitor (ArrayASTNode f items) s) as [ctn s1].
    revert ctn s1. induction IH as [|x xs Hx _ IHxs]; intros ctn s1; simpl.
    + now destruct ctn.
    + simpl in Hall. apply andb_true_iff in Hall as [Hcx Hcxs].
      destruct ctn; [|reflexivity].
      rewrite (Hx Hcx). simpl. rewrite visitList_app.
      destruct (visitList visitor (preorder x) s1) as [ctn' s2].
      rewrite (IHxs Hcxs). now destruct ctn'.
  - simpl. destruct (key p) as [k|] eqn:Hk; [|discriminate].
    destruct (value p) as [v|] eqn:Hv; [|discriminate].
    intros Hc s. simpl. destruct (visitor (PropertyASTNode p) s) as [[] s1]; [|reflexivity].
    destruct (visitor (StringASTNode k) s1) as [[] s2]; [|reflexivity].
    now apply IH.
  - simpl. intros Hall s. destruct (visitor (ObjectASTNode f props) s) as [ctn s1].
    revert ctn s1. induction IH as [|x xs Hx _ IHxs]; intros ctn s1; simpl.
    + now destruct ctn.
    + simpl in Hall. apply andb_true_iff in Hall as [Hcx Hcxs].
      destruct ctn; [|reflexivity].
      destruct (key x) as [k|] eqn:Hk; [|discriminate].
      destruct (value x) as [v|] eqn:Hv; [|discriminate]. simpl.
      destruct (visitor (PropertyASTNode x) s1) as [[] s2]; simpl.
      * destruct (visitor (StringASTNode k) s2) as [[] s3]; simpl.
        -- rewrite (Hx v eq_refl Hcx). simpl. rewrite visitList_app.
           destruct (visitList visitor (preorder v) s3) as [ctn' s4].
           rewrite (IHxs Hcxs). now destruct ctn'.
        -- rewrite (IHxs Hcxs). reflexivity.
      * rewrite (IHxs Hcxs). reflexivity.
Qed.

(** X4. A property without a value ends the traversal of an object: [visit]
    answers [this.value], which is falsy, so the properties after it are
    never visited and the answer is [false], whatever the visitor says. *)
Theorem visit_stops_at_valueless_property (f : NodeFields) (p : Property)
  (rest : list Property) (k : StringFields) (s : St) :
  key p = Some k -> value p = None ->
  let this := ObjectASTNode f (p :: rest) in
  visit visitor this s
  = Ok (false, snd (visitList visitor [this; PropertyASTNode p; StringASTNode k] s)).
Proof.
  intros Hk Hv this. subst this. simpl. rewrite Hk, Hv.
  assert (forall s', (fix loop (properties : list Property) (ctn : bool) (s0 : St) :=
            match properties with
            | [] => Ok (ctn, s0)
            | p0 :: rest0 =>
                if ctn then
                  let! (ctn', s'0) :=
                    (let '(ok, s1) := visitor (PropertyASTNode p0) s0 in
                     if ok then
                       match key p0 with
                       | Some k0 =>
                           let '(ok0, s2) := visitor (StringASTNode k0) s1 in
                           if ok0 then
                             match value p0 with
                             | Some v => visit visitor v s2
                             | None => Ok (false, s2)
                             end
                           else Ok (false, s2)
                       | None => Throw TypeError
                       end
                     else Ok (false, s1)) in loop rest0 ctn' s'0
                else Ok (ctn, s0)
            end) rest false s' = Ok (false, s')) as Hstop
    by (intros s'; destruct rest; reflexivity).
  destruct (visitor (ObjectASTNode f (p :: rest)) s) as [[] s1]; simpl; [|reflexivity].
  destruct (visitor (PropertyASTNode p) s1) as [[] s2]; simpl; [|apply Hstop].
  destruct (visitor (StringASTNode k) s2) as [[] s3]; simpl; apply Hstop.
Qed.

End Visit.

Section Properties.

Lemma getKeyList_keys (properties : list Property) :
  hasKeys properties = true ->
  exists keys, getKeyList properties = Ok keys
               /\ Forall2 (fun p k => s_value <$> key p = Some k) properties keys.
Proof.
  induction properties as [|p ps IH]; simpl; intros H; [eauto|].
  apply andb_true_iff in H as [Hp Hps]. apply bool_decide_eq_true in Hp as [k Hk].
  destruct (IH Hps) as (keys & -> & Hall). rewrite Hk. simpl.
  eexists. split; [reflexivity|]. constructor; [now rewrite Hk|exact Hall].
Qed.

(** X5. On an object whose properties all have their key, [getKeyList] lists
    the text of the key of every property, in order, and
    [getFirstProperty] answers [null] exactly for the names absent from
    that list, otherwise the first property whose key reads that name. *)
Theorem getFirstProperty_first (properties : list Property) (k : string) :
  hasKeys properties = true ->
  exists keys,
    getKeyList properties = Ok keys
    /\ Forall2 (fun p k' => s_value <$> key p = Some k') properties keys
    /\ length keys = length properties
    /\ match getFirstProperty properties k with
       | Ok None => k ∉ keys
       | Ok (Some p) =>
           (s_value <$> key p) = Some k
           /\ exists i, properties !! i = Some p /\ keys !! i = Some k
                        /\ forall j, (j < i)%nat -> keys !! j <> Some k
       | Throw _ => False
       end.
Proof.
  intros H. destruct (getKeyList_keys properties H) as (keys & Hkeys & Hall).
  exists keys. split; [exact Hkeys|]. split; [exact Hall|].
  split; [symmetry; eapply Forall2_length, Hall|].
  clear H Hkeys. induction Hall as [|p k' ps ks Hp _ IH]; simpl.
  - apply not_elem_of_nil.
  - destruct (key p) as [kp|] eqn:Hkp; [|discriminate]. simpl in Hp. injection Hp as <-.
    destruct (String.eqb_spec (s_value kp) k) as [E|Hne].
    + split; [now rewrite Hkp, <- E|]. exists 0%nat. rewrite E.
      repeat split; auto. intros j Hj. lia.
    + destruct (getFirstProperty ps k) as [[q|]|e]; [| |exact IH].
      * destruct IH as (Hq & i & Hi & Hki & Hfirst). split; [exact Hq|].
        exists (S i). repeat split; auto.
        intros [|j] Hj; simpl; [congruence|]. apply Hfirst. lia.
      * intros Hin. apply elem_of_cons in Hin as [?|?]; [congruence|contradiction].
Qed.

(** X6. [addProperty] and [getFirstProperty]: a property found before the
    addition is still the one found after it; a name not found before is
    found afterwards exactly when it is the name of the added property. *)
Theorem getFirstProperty_addProperty (properties : list Property) (p : Property)
  (kp : StringFields) (k : string) :
  key p = Some kp ->
  let properties' := fst (addProperty properties (Obj p)) in
  match getFirstProperty properties k with
  | Ok (Some q) => getFirstProperty properties' k = Ok (Some q)
  | Ok None =>
      getFirstProperty properties' k
      = Ok (if String.eqb (s_value kp) k then Some p else None)
  | Throw e => getFirstProperty properties' k = Throw e
  end.
Proof.
  intros Hk. simpl. induction properties as [|q qs IH]; simpl.
  - rewrite Hk. now destruct (String.eqb (s_value kp) k).
  - destruct (key q) as [kq|]; [|reflexivity].
    destruct (String.eqb (s_value kq) k); [reflexivity|exact IH].
Qed.

(** X7. A property built as the adapter builds it: [setValue] before [setKey]
    throws; after [setKey] the property takes the range of its key, and
    [setValue] names the value after the text of the key. *)
Theorem setKey_then_setValue (parent_ : ParentRef) (k : StringFields) (v : ASTNode) :
  setValue (newProperty parent_) (Obj v) = Throw TypeError
  /\ exists p,
      setValue (fst (setKey (newProperty parent_) (Obj k))) (Obj v) = Ok (p, true)
      /\ start (PropertyASTNode p) = f_start (s_fields k)
      /\ end_ (PropertyASTNode p) = f_end (s_fields k)
      /\ (s_value <$> key p) = Some (s_value k)
      /\ (name <$> value p) = Some (Some (s_value k))
      /\ (fields <$> value p)
         = Some (mkFields (Some (s_value k)) (start v) (end_ v) (parent v)).
Proof.
  split; [reflexivity|]. eexists. split; [reflexivity|]. simpl.
  repeat split; destruct v; reflexivity.
Qed.

(** X8. Looking up an offset in a property built by [setKey] and [setValue]
    never answers the value or a node below it: the property has the range
    of its key, so the key is found wherever the property is entered. *)
Theorem built_property_hides_value (parent_ : ParentRef) (k : StringFields) (v : ASTNode)
  (p : Property) (offset : Z) :
  setValue (fst (setKey (newProperty parent_) (Obj k))) (Obj v) = Ok (p, true) ->
  exists k',
    key p = Some k'
    /\ getNodeFromOffset (PropertyASTNode p) offset
       = Ok (if contains (StringASTNode k') offset false
             then Some (StringASTNode k') else None).
Proof.
  simpl. intros H. injection H as <-. eexists. split; [reflexivity|].
  unfold getNodeFromOffset, contains, start, end_. simpl.
  destruct (f_start (s_fields k) <=? offset) eqn:Hs; simpl; [|reflexivity].
  destruct (offset <? f_end (s_fields k)); reflexivity.
Qed.

End Properties.

(** ** Further properties of the validation result *)

Section ValidationResultLaws.
Import ValidationResult.

(** X9. [compare] is a consistent comparator: swapping the arguments negates
    the answer, and both "at least as good" and "equally good" are
    transitive. *)
Theorem compare_order (a b c : VR) :
  compare b a = - compare a b
  /\ (0 <= compare a b -> 0 <= compare b c -> 0 <= compare a c)
  /\ (compare a b = 0 -> compare b c = 0 -> compare a c = 0).
Proof.
  unfold compare.
  destruct (hasErrors a), (hasErrors b), (hasErrors c); simpl;
    try (repeat split; intros; lia);
    destruct (enumValueMatch a), (enumValueMatch b), (enumValueMatch c); simpl;
    try (repeat split; intros; lia);
    destruct (N.eqb_spec (propertiesValueMatches a) (propertiesValueMatches b));
    destruct (N.eqb_spec (propertiesValueMatches b) (propertiesValueMatches a));
    destruct (N.eqb_spec (propertiesValueMatches b) (propertiesValueMatches c));
    destruct (N.eqb_spec (propertiesValueMatches a) (propertiesValueMatches c));
    simpl; repeat split; intros; lia.
Qed.

(** X10. [mergeAll] concatenates the errors and the warnings of the results in
    order and leaves the counters and the enum match of the receiver as
    they are; the merged result has errors exactly when one of the results
    has. *)
Theorem mergeAll_concat (this : VR) (validationResults : list VR) :
  let merged := mergeAll this validationResults in
  errors merged = errors this ++ concat (errors <$> validationResults)
  /\ warnings merged = warnings this ++ concat (warnings <$> validationResults)
  /\ propertiesMatches merged = propertiesMatches this
  /\ propertiesValueMatches merged = propertiesValueMatches this
  /\ enumValueMatch merged = enumValueMatch this
  /\ hasErrors merged = hasErrors this || existsb hasErrors validationResults.
Proof.
  cbv zeta. unfold mergeAll. revert this.
  induction validationResults as [|r rs IH]; intros this; simpl.
  - rewrite !app_nil_r, orb_false_r. repeat split.
  - destruct (IH (merge this r)) as (He & Hw & Hpm & Hpvm & Hen & Hh).
    rewrite He, Hw, Hpm, Hpvm, Hen, Hh. simpl. rewrite <- !app_assoc.
    repeat split. rewrite orb_assoc. f_equal.
    unfold hasErrors, merge. simpl. rewrite !length_app.
    destruct (errors this), (warnings this), (errors r), (warnings r); reflexivity.
Qed.

End ValidationResultLaws.

(** ** What [validate] does to its result and trace *)

Section Growth.
Import ValidationResult.

Lemma grows_refl (vr : VR) : grows vr vr.
Proof.
  repeat split; try lia; auto. exists []. now rewrite app_nil_r.
Qed.

Lemma grows_trans (a b c : VR) : grows a b -> grows b c -> grows a c.
Proof.
  intros (He & [d Hw] & Hp & Hv & Hn) (He' & [d' Hw'] & Hp' & Hv' & Hn').
  repeat split; try lia; auto; [congruence|].
  exists (d ++ d'). now rewrite Hw', Hw, app_assoc.
Qed.

Lemma grows_pushWarning (vr : VR) (w : IError) : grows vr (pushWarning vr w).
Proof. repeat split; simpl; try lia; auto. now exists [w]. Qed.

Lemma grows_mergePropertyMatch (vr child : VR) :
  grows new child -> grows vr (mergePropertyMatch vr child).
Proof.
  intros (He & _). simpl in He. unfold mergePropertyMatch.
  destruct (_ || _); repeat split; simpl; try lia; auto;
    try (now rewrite He, app_nil_r); now exists (warnings child).
Qed.

Lemma grows_counters (vr : VR) (n m : N) :
  grows vr (addPropertiesValueMatches (addPropertiesMatches vr n) m).
Proof.
  repeat split; simpl; try lia; auto. exists []. now rewrite app_nil_r.
Qed.

Lemma traceGrows_refl (ms : option (list IApplicableSchema)) : traceGrows ms ms.
Proof. destruct ms; simpl; [|reflexivity]. exists []. now rewrite app_nil_r. Qed.

Lemma traceGrows_trans (a b c : option (list IApplicableSchema)) :
  traceGrows a b -> traceGrows b c -> traceGrows a c.
Proof.
  destruct a as [l|]; simpl.
  - intros [d ->] [d' ->]. exists (d ++ d'). now rewrite app_assoc.
  - intros ->. auto.
Qed.

Lemma traceGrows_app (ms : option (list IApplicableSchema))
  (added : list IApplicableSchema) :
  traceGrows ms (match ms with Some l => Some (l ++ added) | None => None end).
Proof. destruct ms; simpl; eauto. Qed.

Section Methods.

Variable RegExp : string -> option (string -> bool).
Variable v : Validate.
Variable vr : VR.
Variable ms : option (list IApplicableSchema).

Lemma Grown_start (types0 : TypeStore) : (Grown vr ms) (mkState types0 vr ms).
Proof. split; [apply grows_refl|apply traceGrows_refl]. Qed.

Lemma Grown_result (st : State) (types' : TypeStore) (r : VR) :
  (Grown vr ms) st -> grows (result st) r -> (Grown vr ms) (mkState types' r (trace st)).
Proof. intros [Hg Ht] Hr. split; [eapply grows_trans; eauto|exact Ht]. Qed.

Lemma Grown_push (this : ASTNode) (m : Message) (st : State) :
  (Grown vr ms) st -> (Grown vr ms) (push this m st).
Proof. intros H. eapply Grown_result; [exact H|apply grows_pushWarning]. Qed.

Lemma Grown_trace (st : State) (types' : TypeStore)
  (added : list IApplicableSchema) :
  (Grown vr ms) st ->
  (Grown vr ms) (mkState types' (result st)
       (match trace st with Some l => Some (l ++ added) | None => None end)).
Proof.
  intros [Hg Ht]. split; [exact Hg|].
  eapply traceGrows_trans; [exact Ht|apply traceGrows_app].
Qed.

Lemma Grown_call (sub : Schema) (this : ASTNode) (offset : Z) (st : State) :
  Growing v sub -> (Grown vr ms) st ->
  Holds True (Grown vr ms) (v sub this (result st) (trace st) offset (types st)).
Proof.
  intros Hs [Hg Ht]. eapply Holds_mono; [apply Hs|].
  intros st' [Hg' Ht']. split; [eapply grows_trans|eapply traceGrows_trans]; eauto.
Qed.

Lemma Grown_child (sub : Schema) (child : ASTNode) (offset : Z) (st : State) :
  Growing v sub -> (Grown vr ms) st -> Holds True (Grown vr ms) (validateChild v sub child offset st).
Proof.
  intros Hs [Hg Ht]. unfold validateChild.
  eapply Holds_bind; [apply Hs|]. intros st' [Hg' Ht']. simpl. split.
  - eapply grows_trans; [exact Hg|]. now apply grows_mergePropertyMatch.
  - eapply traceGrows_trans; eauto.
Qed.

Lemma testAlternatives_grown (this : ASTNode) (alternatives : list Schema)
  (maxOneMatch : bool) (st : State) :
  Forall (Growing v) alternatives -> (Grown vr ms) st ->
  Holds True (fun r => (Grown vr ms) (fst r)) (testAlternatives v this alternatives maxOneMatch st).
Proof.
  intros Hv Hst. unfold testAlternatives.
  eapply (Holds_bind True
            (fun acc : TypeStore * list Schema * option BestMatch =>
               forall best, snd acc = Some best ->
                            errors (best_validationResult best) = [])).
  - apply Holds_forEach; [|intros best; discriminate].
    eapply Forall_impl; [exact Hv|]. intros sub Hsub [[types' matches] best] Hacc.
    simpl in Hacc.
    eapply Holds_bind; [apply (Hsub this new (Some []) (-1) types')|].
    intros sub' [(He & _) _]. simpl in He. simpl. intros b Hb. injection Hb as <-.
    destruct best as [b0|]; [|exact He]. specialize (Hacc b0 eq_refl).
    repeat case_match; simpl; assumption.
  - intros [[types' matches] [best|]] Hacc; simpl in *.
    + specialize (Hacc best eq_refl). destruct Hst as [Hg Ht]. split; simpl.
      * eapply grows_trans; [exact Hg|].
        eapply grows_trans; [|apply grows_counters].
        eapply grows_trans with
          (b := if (1 <? length matches)%nat && maxOneMatch
                then pushWarning (result st)
                       (warning (start this) (start this + 1) (localize "oneOfWarning" []))
                else result st).
        -- destruct (_ && _); [apply grows_pushWarning|apply grows_refl].
        -- generalize (if (1 <? length matches)%nat && maxOneMatch
                then pushWarning (result st)
                       (warning (start this) (start this + 1) (localize "oneOfWarning" []))
                else result st) as r. intros r.
           repeat split; simpl; try lia; auto; [now rewrite Hacc, app_nil_r|].
           now exists (warnings (best_validationResult best)).
      * eapply traceGrows_trans; [exact Ht|apply traceGrows_app].
    + destruct Hst as [Hg Ht]. split; simpl; [|exact Ht].
      destruct (_ && _); [|exact Hg].
      eapply grows_trans; [exact Hg|apply grows_pushWarning].
Qed.

Local Ltac pure_step H :=
  let st := fresh "st" in
  lazymatch goal with
  | |- Holds ?B ?Q (let x := ?e in @?k x) => change (let x := e in Holds B Q (k x))
  end;
  intro st; cbv beta;
  assert ((Grown vr ms) st) as H
    by (subst st; repeat case_match; auto using Grown_push, Grown_start);
  clearbody st.

Local Ltac bind_step := eapply (Holds_bind True (Grown vr ms)).

Lemma ASTNode_validate_grown (schema : Schema) (this : ASTNode) (offset : Z)
  (types0 : TypeStore) :
  Forall (Growing v) (subSchemas schema) ->
  Holds True (Grown vr ms) (ASTNode_validate v schema this vr ms offset types0).
Proof.
  intros Hsub. cbv beta delta [ASTNode_validate].
  pure_step H0.
  destruct (outside this offset); [exact H0|].
  pure_step H1.
  bind_step.
  { destruct (JsonSchema.allOf schema) as [l|] eqn:E; [|exact H1].
    apply Holds_forEach; [|exact H1].
    eapply Forall_impl; [apply (sub_allOf _ _ Hsub _ E)|].
    intros sub Hs s Hgood. now apply Grown_call. }
  intros st1 H2. bind_step.
  { destruct (JsonSchema.not schema) as [sub|] eqn:E; [|exact H2].
    eapply Holds_bind; [apply (sub_not _ _ Hsub _ E)|].
    intros st' _. simpl.
    assert ((Grown vr ms) (if negb (hasErrors (result st'))
               then push this (localize "notSchemaWarning" [])
                         (mkState (types st') (result st1) (trace st1))
               else mkState (types st') (result st1) (trace st1))) as Hn.
    { destruct (negb _); [apply Grown_push|]; exact H2. }
    revert Hn. generalize (if negb (hasErrors (result st'))
               then push this (localize "notSchemaWarning" [])
                         (mkState (types st') (result st1) (trace st1))
               else mkState (types st') (result st1) (trace st1)) as s. intros s Hn.
    now apply Grown_trace. }
  intros st2 H3. bind_step.
  { destruct (JsonSchema.anyOf schema) as [l|] eqn:E; [|exact H3].
    eapply Holds_bind;
      [apply (testAlternatives_grown this l false st2); auto;
       apply (sub_anyOf _ _ Hsub _ E)|].
    intros [st' n] Hst'. exact Hst'. }
  intros st3 H4. bind_step.
  { destruct (JsonSchema.oneOf schema) as [l|] eqn:E; [|exact H4].
    eapply Holds_bind;
      [apply (testAlternatives_grown this l true st3); auto;
       apply (sub_oneOf _ _ Hsub _ E)|].
    intros [st' n] Hst'. exact Hst'. }
  intros st4 H5. bind_step.
  { destruct (JsonSchema.enum schema) as [l|] eqn:E; [|exact H5].
    destruct (getValue this) as [x|]; simpl; [|exact I].
    destruct (notIndexOf l x); simpl; [now apply Grown_push|].
    eapply Grown_result; [exact H5|].
    repeat split; simpl; try lia; auto. exists []. now rewrite app_nil_r. }
  intros st5 H6. simpl. now apply Grown_trace.
Qed.

Lemma NumberASTNode_validate_grown (schema : Schema) (this : ASTNode) (ref : nat)
  (isInteger : bool) (val : JSNumber) (offset : Z) (types0 : TypeStore) :
  Forall (Growing v) (subSchemas schema) ->
  Holds True (Grown vr ms)
        (NumberASTNode_validate v schema this ref isInteger val vr ms offset types0).
Proof.
  intros Hsub. cbv beta delta [NumberASTNode_validate].
  destruct (outside this offset); [apply Grown_start|].
  cbv zeta.
  eapply Holds_bind; [apply (ASTNode_validate_grown schema this offset _ Hsub)|].
  intros st Hst. simpl. repeat case_match; repeat apply Grown_push; exact Hst.
Qed.

Lemma StringASTNode_validate_grown (schema : Schema) (this : ASTNode) (val : string)
  (offset : Z) (types0 : TypeStore) :
  Forall (Growing v) (subSchemas schema) ->
  Holds True (Grown vr ms)
        (StringASTNode_validate RegExp v schema this val vr ms offset types0).
Proof.
  intros Hsub. cbv beta delta [StringASTNode_validate].
  destruct (outside this offset); [apply Grown_start|].
  bind_step; [apply (ASTNode_validate_grown schema this offset types0 Hsub)|].
  intros st Hst. cbv zeta.
  repeat case_match; simpl; auto; repeat apply Grown_push; exact Hst.
Qed.

Lemma ArrayASTNode_validate_grown (schema : Schema) (this : ASTNode)
  (items : list ASTNode) (offset : Z) (types0 : TypeStore) :
  Forall (Growing v) (subSchemas schema) ->
  Holds True (Grown vr ms)
        (ArrayASTNode_validate v schema this items vr ms offset types0).
Proof.
  intros Hsub. cbv beta delta [ArrayASTNode_validate].
  destruct (outside this offset); [apply Grown_start|].
  bind_step; [apply (ASTNode_validate_grown schema this offset types0 Hsub)|].
  intros st Hst. bind_step.
  { destruct (JsonSchema.items schema) as [|l|sub] eqn:E; [exact Hst| |].
    - bind_step.
      + apply Holds_forEachIndex; [|exact Hst].
        eapply Forall_impl; [apply (sub_itemsArray _ _ Hsub _ E)|].
        intros sub Hs i s Hgood. destruct (items !! i) as [item|].
        * now apply Grown_child.
        * destruct (_ <=? _)%nat; [|exact Hgood].
          eapply Grown_result; [exact Hgood|].
          repeat split; simpl; try lia; auto. exists []. now rewrite app_nil_r.
      + intros st1 H1. repeat case_match; [now apply Grown_push| |exact H1].
        eapply Grown_result; [exact H1|].
        repeat split; simpl; try lia; auto. exists []. now rewrite app_nil_r.
    - apply Holds_forEach; [|exact Hst].
      apply Forall_forall. intros item _ s Hgood.
      apply Grown_child; auto. apply (sub_itemsSchema _ _ Hsub _ E). }
  intros st1 H1. pure_step H2. pure_step H3.
  destruct (bool_decide _); [|exact H3].
  destruct (forEach _ items []) as [values|]; simpl; [|exact I].
  destruct (duplicates values); [now apply Grown_push|exact H3].
Qed.

Lemma Grown_fold {A} (g : State -> A -> State) (l : list A) (st : State) :
  (forall s x, Grown vr ms s -> Grown vr ms (g s x)) ->
  Grown vr ms st -> Grown vr ms (fold_left g l st).
Proof.
  intros Hg. revert st. induction l as [|x xs IH]; intros st H; simpl; auto.
Qed.

Lemma Grown_valueMatch (st : State) (n : N) :
  Grown vr ms st -> Grown vr ms (addValueMatches n st).
Proof.
  intros H. eapply Grown_result; [exact H|].
  repeat split; simpl; try lia; auto. exists []. now rewrite app_nil_r.
Qed.

Lemma Grown_warning (st : State) (w : IError) :
  Grown vr ms st ->
  Grown vr ms (mkState (types st) (pushWarning (result st) w) (trace st)).
Proof. intros H. eapply Grown_result; [exact H|apply grows_pushWarning]. Qed.

Lemma processProperty_grown (seenKeys : gmap string (option ASTNode)) (offset : Z)
  (propertyName : string) (prop : Schema) (acc : State * list string) :
  Growing v prop -> Grown vr ms (fst acc) ->
  Holds True (fun acc' => Grown vr ms (fst acc'))
        (processProperty v seenKeys offset propertyName prop acc).
Proof.
  intros Hs Hgood. destruct acc as [st un]. unfold processProperty.
  destruct (seen seenKeys propertyName) as [child|]; [|exact Hgood].
  eapply Holds_bind; [apply (Grown_child prop child offset st); auto|].
  intros st' Hst'. exact Hst'.
Qed.

Lemma ObjectASTNode_validate_grown (schema : Schema) (this : ASTNode)
  (properties : list Property) (offset : Z) (types0 : TypeStore) :
  Forall (Growing v) (subSchemas schema) ->
  Holds True (Grown vr ms)
        (ObjectASTNode_validate RegExp v schema this properties vr ms offset types0).
Proof.
  intros Hsub. cbv beta delta [ObjectASTNode_validate].
  destruct (outside this offset); [apply Grown_start|].
  bind_step; [apply (ASTNode_validate_grown schema this offset types0 Hsub)|].
  intros st Hst.
  eapply (Holds_bind True (fun _ => True));
    [destruct (forEach _ properties (∅, [])); exact I|].
  intros [seenKeys un] _.
  lazymatch goal with
  | |- Holds ?B ?Q (let x := ?e in @?k x) => change (let x := e in Holds B Q (k x))
  end.
  intros st1. cbv beta.
  assert (Grown vr ms st1) as H1.
  { subst st1. destruct (JsonSchema.required schema); [|exact Hst].
    apply Grown_fold; [|exact Hst]. intros s x Hs.
    destruct (seen seenKeys x); [exact Hs|]. now apply Grown_warning. }
  clearbody st1.
  eapply (Holds_bind True (fun acc : State * list string => Grown vr ms (fst acc))).
  { destruct (JsonSchema.properties schema) as [l|] eqn:E; [|exact H1].
    apply (Holds_forEach True (fun acc : State * list string => Grown vr ms (fst acc)));
      [|exact H1].
    eapply Forall_impl; [apply (sub_properties _ _ Hsub _ E)|].
    intros [k prop] Hs acc Hacc. now apply processProperty_grown. }
  intros [st2 un2] H2. simpl in H2.
  eapply (Holds_bind True (fun acc : State * list string => Grown vr ms (fst acc))).
  { destruct (JsonSchema.patternProperties schema) as [l|] eqn:E; [|exact H2].
    apply (Holds_forEach True (fun acc : State * list string => Grown vr ms (fst acc)));
      [|exact H2].
    eapply Forall_impl; [apply (sub_patternProperties _ _ Hsub _ E)|].
    intros [pat prop] Hs [st' un'] Hacc. simpl in *.
    destruct (RegExp pat) as [test|]; [|exact I].
    apply (Holds_forEach True (fun acc : State * list string => Grown vr ms (fst acc)));
      [|exact Hacc].
    apply Forall_forall. intros k _ acc Hacc'.
    destruct (test k); [|exact Hacc']. now apply processProperty_grown. }
  intros [st3 un3] H3. simpl in H3.
  bind_step.
  { destruct (JsonSchema.additionalProperties schema) as [| |sub] eqn:E; [exact H3| |].
    - apply Holds_forEach; [|exact H3].
      apply Forall_forall. intros k _ s Hgood.
      repeat case_match; simpl; auto. now apply Grown_warning.
    - apply Holds_forEach; [|exact H3].
      apply Forall_forall. intros k _ s Hgood.
      destruct (seen seenKeys k) as [child|]; [|exact Hgood].
      apply Grown_child; auto. apply (sub_additionalProperties _ _ Hsub _ E). }
  intros st4 H4. pure_step H5. pure_step H6.
  destruct (JsonSchema.dependencies schema) as [l|] eqn:E; [|exact H6].
  apply Holds_forEach; [|exact H6].
  eapply Forall_impl; [apply (sub_dependencies _ _ Hsub _ E)|].
  intros [k d] Hs s Hgood. simpl in Hs.
  destruct (seen seenKeys k); [|exact Hgood].
  destruct d as [|names|sub]; [exact Hgood| |].
  - simpl. apply Grown_fold; [|exact Hgood]. intros s' x Hs'.
    destruct (seen seenKeys x); [now apply Grown_valueMatch|now apply Grown_push].
  - apply Grown_child; auto.
Qed.

End Methods.

Lemma validate_growing (RegExp : string -> option (string -> bool)) (schema : Schema) :
  Growing (validate RegExp) schema.
Proof.
  induction schema as [schema IH] using Schema_sub_ind.
  intros this.
  induction this as [node Hleaf|f items _|p IHp|f props _] using ASTNode_owned_ind;
    intros vr ms offset types0; rewrite validate_unfold.
  - destruct node as [f|f b|f r i n|s|f items|p|f props].
    + now apply ASTNode_validate_grown.
    + now apply ASTNode_validate_grown.
    + now apply NumberASTNode_validate_grown.
    + now apply StringASTNode_validate_grown.
    + now apply ArrayASTNode_validate_grown.
    + simpl in Hleaf. destruct (value p); discriminate.
    + now apply ObjectASTNode_validate_grown.
  - now apply ArrayASTNode_validate_grown.
  - destruct (outside _ _); [apply Grown_start|].
    destruct (value p) as [c|] eqn:Ec; [|apply Grown_start].
    apply (IHp c eq_refl).
  - now apply ObjectASTNode_validate_grown.
Qed.

(** X11. Whatever the schema and the node, a call of [validate] that returns
    has recorded no error (every violation is a warning), has kept the
    warnings it was given as a prefix of those it hands back, has not
    lowered a counter nor cleared the enum match, and has extended the
    trace it was given, or left it [null] when none was requested. *)
Theorem validate_only_adds (RegExp : string -> option (string -> bool))
  (schema : Schema) (this : ASTNode) (vr : VR) (ms : option (list IApplicableSchema))
  (offset : Z) (types0 : TypeStore) (st : State) :
  validate RegExp schema this vr ms offset types0 = Ok st ->
  errors (result st) = errors vr
  /\ (exists added, warnings (result st) = warnings vr ++ added)
  /\ (propertiesMatches vr <= propertiesMatches (result st))%N
  /\ (propertiesValueMatches vr <= propertiesValueMatches (result st))%N
  /\ (enumValueMatch vr = true -> enumValueMatch (result st) = true)
  /\ traceGrows ms (trace st).
Proof.
  intros H. pose proof (validate_growing RegExp schema this vr ms offset types0) as Hg.
  rewrite H in Hg. destruct Hg as [(He & Hw & Hp & Hv & Hn) Ht]. auto 10.
Qed.

End Growth.

(** ** The engine on schemas of one keyword *)

Section Keywords.
Import ValidationResult.

Variable RegExp : string -> option (string -> bool).

Lemma seenKeys_total (properties : list Property)
  (acc : gmap string (option ASTNode) * list string) :
  hasKeys properties = true ->
  exists seenKeys unprocessed,
    forEach (fun (node : Property) '(seenKeys, unprocessedProperties) =>
               match key node with
               | Some k =>
                   Ok (<[s_value k := value node]> seenKeys,
                       unprocessedProperties ++ [s_value k])
               | None => Throw TypeError
               end)
            properties acc = Ok (seenKeys, unprocessed)
    /\ forall k, seen seenKeys k = match lastNamed properties k with
                                   | Some p => value p
                                   | None => seen (fst acc) k
                                   end.
Proof.
  revert acc. induction properties as [|p ps IH]; intros [m un] H; simpl.
  - eauto.
  - simpl in H. apply andb_true_iff in H as [Hp Hps].
    apply bool_decide_eq_true in Hp as [kp Hk]. rewrite Hk. simpl.
    destruct (IH (<[s_value kp := value p]> m, un ++ [s_value kp]) Hps)
      as (m' & un' & -> & Hseen).
    exists m', un'. split; [reflexivity|]. intros k. rewrite Hseen. simpl.
    destruct (lastNamed ps k); [reflexivity|].
    unfold seen. rewrite lookup_insert.
    destruct (String.eqb_spec (s_value kp) k) as [->|Hne].
    + now rewrite decide_True.
    + now rewrite decide_False.
Qed.

Lemma attached_hasKeys (f : NodeFields) (properties : list Property) :
  attached (ObjectASTNode f properties) = true -> hasKeys properties = true.
Proof.
  simpl. unfold hasKeys. intros H. apply forallb_forall. intros p Hp.
  rewrite forallb_forall in H. specialize (H p Hp).
  destruct (key p); [|discriminate]. apply bool_decide_eq_true. eauto.
Qed.

(** X12. The empty schema accepts every document: on a tree as the adapter
    builds it, validation against [{}] returns with the result it was
    given and the [type] fields as they were; only the trace may grow. *)
Theorem empty_schema_accepts (this : ASTNode) (vr : VR)
  (ms : option (list IApplicableSchema)) (offset : Z) :
  attached this = true ->
  exists ms', validate RegExp JsonSchema.empty this vr ms offset ∅
              = Ok (mkState ∅ vr ms').
Proof.
  induction this as [node Hleaf|f items _|p IHp|f props _] using ASTNode_owned_ind;
    intros Hatt; rewrite validate_unfold.
  - destruct node as [f|f b|f r i n|s|f items|p|f props];
      unfold ASTNode_validate, NumberASTNode_validate, StringASTNode_validate,
        ArrayASTNode_validate, ObjectASTNode_validate, ASTNode_validate;
      try (destruct (outside _ _); simpl; eauto; fail).
    + destruct (outside _ _); simpl; [eauto|].
      replace ((∅ : TypeStore) ∖ {[r]}) with (∅ : TypeStore)
        by (symmetry; apply difference_disjoint_L, disjoint_empty_l).
      eauto.
    + simpl in Hleaf. destruct (value p); discriminate.
    + destruct (outside _ _); simpl; [eauto|].
      destruct (seenKeys_total props (∅, []) (attached_hasKeys _ _ Hatt))
        as (m & un & -> & _). simpl. eauto.
  - unfold ArrayASTNode_validate, ASTNode_validate.
    destruct (outside _ _); simpl; eauto.
  - destruct (outside _ _); [eauto|].
    destruct (value p) as [c|] eqn:Ec; [|eauto].
    apply (IHp c eq_refl). simpl in Hatt. rewrite Ec in Hatt.
    destruct (key p); [|discriminate]. now apply andb_true_iff in Hatt as [_ ?].
  - unfold ObjectASTNode_validate, ASTNode_validate.
    destruct (outside _ _); simpl; [eauto|].
    destruct (seenKeys_total props (∅, []) (attached_hasKeys _ _ Hatt))
      as (m & un & -> & _). simpl. eauto.
Qed.

(** X13. The types of a Number node, from any state of its [type] field.
    While the field reads ['number'], as it does at rest, the node
    satisfies [type: "number"], and it satisfies [type: "integer"] exactly
    when [isInteger] holds. While the field reads ['integer'], as it does
    inside a call under [type: "integer"], the node satisfies
    [type: "integer"] and fails [type: "number"]. A failure is one type
    warning over the range of the node; either call leaves the field
    reading ['number'] and records the schema in a requested trace. A node
    that does not contain the offset is left alone. *)
Theorem number_types (f : NodeFields) (ref : nat) (isInteger : bool) (val : JSNumber)
  (vr : VR) (ms : option (list IApplicableSchema)) (offset : Z) (types0 : TypeStore) :
  let this := NumberASTNode f ref isInteger val in
  let traced schema :=
    match ms with
    | Some l => Some (l ++ [mkApplicable this None schema])
    | None => None
    end in
  let mismatch expected :=
    pushWarning vr (Sample.typeMismatch (f_start f) (f_end f) expected) in
  validate RegExp (Sample.typed "number") this vr ms offset types0
  = (if outside this offset then Ok (mkState types0 vr ms)
     else Ok (mkState (types0 ∖ {[ref]})
                (if bool_decide (ref ∈ types0) then mismatch "number"%string else vr)
                (traced (Sample.typed "number"))))
  /\ validate RegExp (Sample.typed "integer") this vr ms offset types0
     = (if outside this offset then Ok (mkState types0 vr ms)
        else Ok (mkState (types0 ∖ {[ref]})
                   (if isInteger || bool_decide (ref ∈ types0) then vr
                    else mismatch "integer"%string)
                   (traced (Sample.typed "integer")))).
Proof.
  assert (({[ref]} ∪ types0) ∖ {[ref]} = types0 ∖ {[ref]}) as E.
  { apply set_eq. intros x. rewrite !elem_of_difference, elem_of_union. tauto. }
  cbv zeta. split; rewrite validate_unfold; unfold NumberASTNode_validate;
    destruct (outside _ offset) eqn:Ho; try reflexivity;
    unfold ASTNode_validate; rewrite Ho; simpl.
  - destruct (decide (ref ∈ types0)) as [Hin|Hnin].
    + rewrite bool_decide_eq_true_2 by exact Hin. now destruct ms.
    + rewrite bool_decide_eq_false_2 by exact Hnin. now destruct ms.
  - destruct isInteger; simpl.
    + rewrite decide_True by (apply elem_of_union_l, elem_of_singleton; reflexivity).
      simpl. rewrite E. now destruct ms.
    + destruct (decide (ref ∈ types0)) as [Hin|Hnin].
      * rewrite bool_decide_eq_true_2 by exact Hin. now destruct ms.
      * rewrite bool_decide_eq_false_2 by exact Hnin. now destruct ms.
Qed.

Lemma required_fold (this : ASTNode) (seenKeys : gmap string (option ASTNode))
  (properties : list Property) (names : list string) (st : State) :
  (forall k, seen seenKeys k = lastNamed properties k ≫= value) ->
  fold_left
    (fun st propertyName =>
       match seen seenKeys propertyName with
       | Some _ => st
       | None =>
           let location :=
             match parent this with
             | ParentNode (Some keyRange) => keyRange
             | _ => mkRange (start this) (start this + 1)
             end in
           mkState (types st)
             (pushWarning (result st)
                {| location := location;
                   message := localize "MissingRequiredPropWarning"
                                       [ArgString propertyName] |})
             (trace st)
       end)
    names st
  = mkState (types st)
      (mk (errors (result st))
          (warnings (result st)
           ++ (missingProperty this <$> List.filter (unseen properties) names))
          (propertiesMatches (result st)) (propertiesValueMatches (result st))
          (enumValueMatch (result st)))
      (trace st).
Proof.
  intros Hseen. revert st. induction names as [|n ns IH]; intros st; simpl.
  - rewrite app_nil_r. now destruct st as [? [] ?].
  - rewrite IH. unfold unseen at 2. rewrite <- Hseen.
    destruct (seen seenKeys n); simpl; [reflexivity|].
    rewrite <- app_assoc. reflexivity.
Qed.

(** X14. [required]: on an object whose properties have their keys, validation
    against [{required: names}] adds one "missing property" warning for
    each required name under which no value is seen, in the order of
    [names], and nothing else. A name is seen through the last property
    that bears it: a key without a value counts as missing. The names
    are not inherited members and no property is named ["__proto__"], so
    that [seenKeys] reads as the map of its own keys. *)
Theorem required_warnings (f : NodeFields) (properties : list Property)
  (names : list string) (vr : VR) :
  hasKeys properties = true ->
  plainKeys properties = true ->
  ownNames names = true ->
  let this := ObjectASTNode f properties in
  validate RegExp (requiredOnly names) this vr None (-1) ∅
  = Ok (mkState ∅
          (mk (errors vr)
              (warnings vr
               ++ (missingProperty this <$> List.filter (unseen properties) names))
              (propertiesMatches vr) (propertiesValueMatches vr) (enumValueMatch vr))
          None).
Proof.
  intros Hkeys _ _ this. subst this. rewrite validate_unfold.
  unfold ObjectASTNode_validate, ASTNode_validate, outside. simpl.
  destruct (seenKeys_total properties (∅, []) Hkeys) as (m & un & -> & Hseen). simpl.
  rewrite (required_fold _ m properties); [reflexivity|].
  intros k. rewrite Hseen. simpl. unfold seen. rewrite lookup_empty. simpl.
  now destruct (lastNamed properties k).
Qed.

End Keywords.

(** ** Duplicate items *)

Section Duplicates.

Lemma lastIndexOf_None (values : list JSValue) (i : nat) (v : JSValue) :
  lastIndexOf values i v = None <-> Forall (fun x => strictEquals v x = false) values.
Proof.
  revert i. induction values as [|x xs IH]; intros i; simpl.
  - split; [constructor|reflexivity].
  - destruct (lastIndexOf xs (S i) v) as [j|] eqn:E.
    + split; [discriminate|]. intros H. apply Forall_cons in H as [_ H].
      apply (IH (S i)) in H. congruence.
    + apply IH in E. destruct (strictEquals v x) eqn:Ex.
      * split; [discriminate|]. intros H. apply Forall_cons in H as [H _]. congruence.
      * split; [|reflexivity]. intros _. now constructor.
Qed.

(** [lastIndexOf] answers the last position that holds a strictly equal
    value. *)
Lemma lastIndexOf_Some (values : list JSValue) (i j : nat) (v : JSValue) :
  lastIndexOf values i v = Some j ->
  exists k x, j = (i + k)%nat /\ values !! k = Some x /\ strictEquals v x = true
              /\ forall k' x', (k < k')%nat -> values !! k' = Some x' ->
                               strictEquals v x' = false.
Proof.
  revert i j. induction values as [|x xs IH]; intros i j; simpl; [discriminate|].
  destruct (lastIndexOf xs (S i) v) as [j'|] eqn:E.
  - intros H. injection H as <-. destruct (IH _ _ E) as (k & y & -> & Hk & Hy & Hlast).
    exists (S k), y. split; [lia|]. split; [exact Hk|]. split; [exact Hy|].
    intros [|k'] x' Hlt Hx'; [lia|]. apply (Hlast k'); [lia|exact Hx'].
  - destruct (strictEquals v x) eqn:Ex; [|discriminate].
    intros H. injection H as <-. exists 0%nat, x.
    split; [lia|]. split; [reflexivity|]. split; [exact Ex|].
    intros [|k'] x' Hlt Hx'; [lia|]. simpl in Hx'.
    apply lastIndexOf_None in E. rewrite Forall_forall in E.
    apply E. eapply list_elem_of_lookup_2, Hx'.
Qed.

Lemma strictEquals_refl (v x : JSValue) :
  strictEquals v x = true -> strictEquals v v = true.
Proof.
  destruct v as [| |b|[|q]|s|l|o]; simpl; intros H; try reflexivity.
  - now destruct b.
  - destruct x as [| |b'|[|q']|s'|l'|o']; discriminate.
  - apply Qeq_bool_refl.
  - apply String.eqb_refl.
  - destruct x; discriminate.
  - destruct x; discriminate.
Qed.

Lemma strictEquals_irrefl (v : JSValue) :
  strictEquals v v = false ->
  v = VNumber NaN \/ (exists l, v = VArray l) \/ (exists o, v = VObject o).
Proof.
  destruct v as [| |b|[|q]|s|l|o]; simpl; eauto; try discriminate.
  - now destruct b.
  - now rewrite Qeq_bool_refl.
  - now rewrite String.eqb_refl.
Qed.

(** X15. [uniqueItems] finds a duplicate exactly when two items have strictly
    equal values, or when an item is [NaN]: arrays and objects, which
    [getValue] builds afresh, are equal to nothing, and [NaN], equal to
    nothing either, is never found by [lastIndexOf]. *)
Theorem duplicates_iff (values : list JSValue) :
  duplicates values = true <->
  VNumber NaN ∈ values
  \/ exists i j vi vj, (i < j)%nat /\ values !! i = Some vi /\ values !! j = Some vj
                       /\ strictEquals vi vj = true.
Proof.
  unfold duplicates. rewrite existsb_exists. split.
  - intros ([index v] & Hin & H).
    apply list_elem_of_In, elem_of_lookup_imap_1 in Hin as (i & y & E & Hi).
    injection E as -> ->.
    destruct (lastIndexOf values 0 y) as [j|] eqn:El.
    + destruct (lastIndexOf_Some _ _ _ _ El) as (k & x & -> & Hk & Hx & Hlast).
      simpl in *. right.
      assert (strictEquals y y = true) as Hyy by eauto using strictEquals_refl.
      assert (i <> k) as Hne.
      { destruct y; try discriminate; now apply negb_true_iff, Nat.eqb_neq in H. }
      destruct (Nat.lt_ge_cases i k) as [Hlt|Hge]; [eauto 10|].
      assert (k < i)%nat as Hlt by lia.
      specialize (Hlast i y Hlt Hi). congruence.
    + apply lastIndexOf_None in El. rewrite Forall_forall in El.
      assert (strictEquals y y = false) as Hyy
        by (apply El; eapply list_elem_of_lookup_2, Hi).
      apply strictEquals_irrefl in Hyy as [->|[[l ->]|[o ->]]]; try discriminate.
      left. eapply list_elem_of_lookup_2, Hi.
  - intros [Hnan|(i & j & vi & vj & Hlt & Hi & Hj & Heq)].
    + apply list_elem_of_lookup_1 in Hnan as [i Hi].
      exists (i, VNumber NaN). split.
      * apply list_elem_of_In. apply (elem_of_lookup_imap_2 (fun idx v => (idx, v)) _ _ _ Hi).
      * assert (lastIndexOf values 0 (VNumber NaN) = None) as ->; [|reflexivity].
        apply lastIndexOf_None, Forall_forall. intros x _. now destruct x.
    + exists (i, vi). split.
      * apply list_elem_of_In. apply (elem_of_lookup_imap_2 (fun idx v => (idx, v)) _ _ _ Hi).
      * destruct (lastIndexOf values 0 vi) as [k|] eqn:El.
        -- destruct (lastIndexOf_Some _ _ _ _ El) as (k' & x & -> & Hk & Hx & Hlast).
           simpl. assert (i <> k') as Hne.
           { intros <-. specialize (Hlast j vj Hlt Hj). congruence. }
           apply Nat.eqb_neq in Hne. rewrite Hne.
           destruct vi; try reflexivity; discriminate.
        -- destruct vi; try reflexivity; discriminate.
Qed.

End Duplicates.

(** ** The diagnostics sent to the editor *)

Section Diagnostics.

Variable render : Message -> string.
Variable n : nat.

Lemma toDiagnostics_loop (items : list IError) :
  let '(added, ds) :=
    fold_left (addDiagnostic render n) (imap (fun idx error => (idx, error)) items)
              (∅, []) in
  (forall s, s ∈ added <-> s ∈ signatureOf render <$> items)
  /\ NoDup (diagnosticSignature <$> ds)
  /\ (forall s, s ∈ diagnosticSignature <$> ds <-> s ∈ signatureOf render <$> items)
  /\ (forall d, d ∈ ds ->
        exists idx e,
          items !! idx = Some e
          /\ diagnosticSignature d = signatureOf render e
          /\ (forall idx' e', (idx' < idx)%nat -> items !! idx' = Some e' ->
                              signatureOf render e' <> diagnosticSignature d)
          /\ severity d = if (n <=? idx)%nat
                          then DiagnosticSeverity.Warning
                          else DiagnosticSeverity.Error).
Proof.
  induction items as [|x l IH] using rev_ind.
  - simpl. split; [|split; [|split]].
    + intros s. split; intros Hs; [now apply not_elem_of_empty in Hs|inversion Hs].
    + constructor.
    + intros s. split; intros Hs; inversion Hs.
    + intros d Hd. inversion Hd.
  - rewrite imap_app, fold_left_app. simpl.
    destruct (fold_left _ (imap _ l) _) as [added ds].
    destruct IH as (Hadded & Hnodup & Hsigs & Hfirst).
    rewrite Nat.add_0_r. cbv beta iota delta [addDiagnostic]. cbv zeta.
    destruct (decide (signatureOf render x ∈ added)) as [Hin|Hnin].
    + apply Hadded in Hin. repeat split.
      * intros Hs. rewrite fmap_app. apply elem_of_app. left. now apply Hadded.
      * rewrite fmap_app. intros Hs. apply elem_of_app in Hs as [Hs|Hs]; [now apply Hadded|].
        apply list_elem_of_singleton in Hs. subst. now apply Hadded.
      * exact Hnodup.
      * intros Hs. rewrite fmap_app. apply elem_of_app. left. now apply Hsigs.
      * rewrite fmap_app. intros Hs. apply elem_of_app in Hs as [Hs|Hs]; [now apply Hsigs|].
        apply list_elem_of_singleton in Hs. subst. now apply Hsigs.
      * intros d Hd. destruct (Hfirst d Hd) as (idx & e & Hi & He & Hf & Hsev).
        exists idx, e. pose proof (lookup_lt_Some _ _ _ Hi) as Hlt.
        repeat split; auto; [now rewrite lookup_app_l|].
        intros idx' e' Hlt' Hi'. rewrite lookup_app_l in Hi' by lia. eauto.
    + assert (signatureOf render x ∉ signatureOf render <$> l) as Hnew
        by (intros E; now apply Hadded in E).
      repeat split.
      * intros Hs. rewrite fmap_app. apply elem_of_app.
        apply elem_of_union in Hs as [Hs|Hs]; [right|left; now apply Hadded].
        apply elem_of_singleton in Hs. subst. now left.
      * rewrite fmap_app. intros Hs. apply elem_of_union.
        apply elem_of_app in Hs as [Hs|Hs]; [right; now apply Hadded|left].
        apply list_elem_of_singleton in Hs. now apply elem_of_singleton.
      * rewrite fmap_app. apply NoDup_app. repeat split; [exact Hnodup| |].
        -- intros s Hs Hs'. apply list_elem_of_singleton in Hs'. subst.
           now apply Hsigs in Hs.
        -- apply NoDup_singleton.
      * rewrite !fmap_app. intros Hs. apply elem_of_app.
        apply elem_of_app in Hs as [Hs|Hs]; [left; now apply Hsigs|now right].
      * rewrite !fmap_app. intros Hs. apply elem_of_app.
        apply elem_of_app in Hs as [Hs|Hs]; [left; now apply Hsigs|now right].
      * intros d Hd. apply elem_of_app in Hd as [Hd|Hd].
        -- destruct (Hfirst d Hd) as (idx & e & Hi & He & Hf & Hsev).
           exists idx, e. pose proof (lookup_lt_Some _ _ _ Hi) as Hlt.
           repeat split; auto; [now rewrite lookup_app_l|].
           intros idx' e' Hlt' Hi'. rewrite lookup_app_l in Hi' by lia. eauto.
        -- apply list_elem_of_singleton in Hd. subst d.
           exists (length l), x. repeat split.
           ++ rewrite lookup_app_r by lia. now rewrite Nat.sub_diag.
           ++ intros idx' e' Hlt Hi'. rewrite lookup_app_l in Hi' by lia.
              intros Heq. apply Hnew. unfold diagnosticSignature in Heq. simpl in Heq.
              change (signatureOf render e' = signatureOf render x) in Heq.
              rewrite <- Heq. apply list_elem_of_fmap. exists e'. split; [reflexivity|].
              eapply list_elem_of_lookup_2, Hi'.
Qed.

End Diagnostics.

(** X16. The diagnostics built from the errors and warnings of a document: no
    two of them share range and message, every error and warning is
    represented by one of them, and a diagnostic is an [Error] exactly when
    it stems from the errors; a warning that repeats an error is dropped. *)
Theorem toDiagnostics_spec (render : Message -> string) (errors warnings : list IError) :
  let ds := toDiagnostics render errors warnings in
  NoDup (diagnosticSignature <$> ds)
  /\ (forall s, s ∈ diagnosticSignature <$> ds
                <-> s ∈ signatureOf render <$> (errors ++ warnings))
  /\ (forall d, d ∈ ds ->
                (severity d = DiagnosticSeverity.Error
                 <-> diagnosticSignature d ∈ signatureOf render <$> errors)).
Proof.
  cbv zeta. unfold toDiagnostics.
  pose proof (toDiagnostics_loop render (length errors) (errors ++ warnings)) as H.
  destruct (fold_left _ _ _) as [added ds]. simpl.
  destruct H as (_ & Hnodup & Hsigs & Hfirst).
  split; [exact Hnodup|]. split; [exact Hsigs|].
  intros d Hd. destruct (Hfirst d Hd) as (idx & e & Hi & He & Hf & Hsev).
  rewrite Hsev. destruct (Nat.leb_spec (length errors) idx) as [Hle|Hlt].
  - split; [discriminate|]. intros Hin. exfalso.
    apply list_elem_of_fmap in Hin as (e' & He' & Hin).
    apply list_elem_of_lookup_1 in Hin as [i Hi'].
    pose proof (lookup_lt_Some _ _ _ Hi') as Hlt.
    apply (Hf i e'); [lia| |congruence].
    now rewrite lookup_app_l.
  - split; [|reflexivity]. intros _. rewrite He.
    apply list_elem_of_fmap. exists e. split; [reflexivity|].
    rewrite lookup_app_l in Hi by lia. eapply list_elem_of_lookup_2, Hi.
Qed.

(** ** The value of an object *)

Section ObjectValue.

Lemma assign_keys (k : string) (v : JSValue) (obj : list (string * JSValue)) :
  (assign k v obj).*1 = if decide (k ∈ obj.*1) then obj.*1 else obj.*1 ++ [k].
Proof.
  induction obj as [|[k' v'] rest IH].
  - destruct (decide (k ∈ ([] : list (string * JSValue)).*1)) as [Hin|_]; [|reflexivity].
    now apply not_elem_of_nil in Hin.
  - change (assign k v ((k', v') :: rest))
      with (if String.eqb k' k then (k, v) :: rest else (k', v') :: assign k v rest).
    change (((k', v') :: rest).*1) with (k' :: rest.*1).
    destruct (String.eqb_spec k' k) as [->|Hne].
    + destruct (decide (k ∈ k :: rest.*1)) as [_|Hnin]; [reflexivity|].
      exfalso. apply Hnin, list_elem_of_here.
    + change (((k', v') :: assign k v rest).*1) with (k' :: (assign k v rest).*1).
      rewrite IH.
      destruct (decide (k ∈ rest.*1)) as [Hin|Hnin];
        destruct (decide (k ∈ k' :: rest.*1)) as [Hin'|Hnin']; try reflexivity.
      * exfalso. apply Hnin'. now apply list_elem_of_further.
      * exfalso. apply elem_of_cons in Hin' as [->|Hin']; [now apply Hne|now apply Hnin].
Qed.

Lemma assign_NoDup (k : string) (v : JSValue) (obj : list (string * JSValue)) :
  NoDup obj.*1 -> NoDup (assign k v obj).*1.
Proof.
  intros Hnd. rewrite assign_keys. destruct (decide (k ∈ obj.*1)) as [Hin|Hnin]; [exact Hnd|].
  apply NoDup_app. repeat split; [exact Hnd| |apply NoDup_singleton].
  intros x Hx Hx'. apply list_elem_of_singleton in Hx'. now subst.
Qed.

Lemma assign_elem (k : string) (v : JSValue) (obj : list (string * JSValue))
  (entry : string * JSValue) :
  entry ∈ assign k v obj -> entry = (k, v) \/ entry ∈ obj.
Proof.
  induction obj as [|[k' v'] rest IH]; simpl.
  - intros Hin. apply list_elem_of_singleton in Hin. now left.
  - destruct (String.eqb_spec k' k) as [->|Hne]; intros Hin;
      apply elem_of_cons in Hin as [->|Hin].
    + now left.
    + right. now apply list_elem_of_further.
    + right. apply list_elem_of_here.
    + destruct (IH Hin) as [->|Hin']; [now left|right; now apply list_elem_of_further].
Qed.

(** X17. The value of an object holds each name once and no falsy value: a
    property whose value is [null], [false], [0], [NaN] or the empty
    string is left out, as is one that holds no value.  Every entry is
    the value of one of the properties, under its key. *)
Theorem getValue_object (f : NodeFields) (properties : list Property) (v : JSValue) :
  getValue (ObjectASTNode f properties) = Ok v ->
  exists obj,
    v = VObject obj
    /\ NoDup obj.*1
    /\ forall k x, (k, x) ∈ obj ->
         truthy x = true
         /\ exists p kp n, p ∈ properties /\ key p = Some kp /\ s_value kp = k
                           /\ value p = Some n /\ getValue n = Ok x.
Proof.
  pose (I := fun obj : list (string * JSValue) =>
    NoDup obj.*1
    /\ forall k x, (k, x) ∈ obj ->
         truthy x = true
         /\ exists p kp n, p ∈ properties /\ key p = Some kp /\ s_value kp = k
                           /\ value p = Some n /\ getValue n = Ok x).
  simpl.
  match goal with |- context [forEach ?step properties []] =>
    assert (forall props acc, props ⊆ properties -> I acc ->
                              Holds True I (forEach step props acc)) as Hloop end.
  { induction props as [|p rest IH]; intros acc Hsub Hacc; simpl; [exact Hacc|].
    assert (p ∈ properties) as Hp by (apply Hsub, list_elem_of_here).
    assert (rest ⊆ properties) as Hrest
        by (intros q Hq; apply Hsub; now apply list_elem_of_further).
    destruct (value p) as [n|] eqn:Hn; simpl; [|now apply IH].
    destruct (getValue n) as [x|e] eqn:Hx; simpl; [|exact Logic.I].
    destruct (truthy x) eqn:Ht; [|now apply IH].
    destruct (key p) as [kp|] eqn:Hk; simpl; [|exact Logic.I].
    apply IH; [exact Hrest|]. destruct Hacc as [Hnd Hall]. split.
    - now apply assign_NoDup.
    - intros k y Hin. apply assign_elem in Hin as [E|Hin]; [|now apply Hall].
      injection E as -> ->. split; [exact Ht|]. exists p, kp, n. auto. }
  intros H. specialize (Hloop properties [] (fun _ Hq => Hq)).
  destruct (forEach _ properties []) as [obj|e]; simpl in H; [|discriminate].
  injection H as <-. exists obj. split; [reflexivity|].
  apply Hloop. split; [constructor|]. intros k x Hin. inversion Hin.
Qed.

End ObjectValue.

(** ** The result is only accumulated *)

Section Accumulation.
Import ValidationResult.

Lemma accumulate_new (vr : VR) : accumulate vr new = vr.
Proof.
  destruct vr. unfold accumulate. simpl.
  now rewrite !app_nil_r, !N.add_0_r, orb_false_r.
Qed.

Lemma accumulate_pushWarning (vr r : VR) (w : IError) :
  pushWarning (accumulate vr r) w = accumulate vr (pushWarning r w).
Proof. unfold pushWarning, accumulate. simpl. now rewrite app_assoc. Qed.

Lemma accumulate_merge (vr r other : VR) :
  merge (accumulate vr r) other = accumulate vr (merge r other).
Proof. unfold merge, accumulate. simpl. now rewrite !app_assoc. Qed.

Lemma accumulate_addPropertiesMatches (vr r : VR) (n : N) :
  addPropertiesMatches (accumulate vr r) n = accumulate vr (addPropertiesMatches r n).
Proof. unfold addPropertiesMatches, accumulate. simpl. now rewrite N.add_assoc. Qed.

Lemma accumulate_addPropertiesValueMatches (vr r : VR) (n : N) :
  addPropertiesValueMatches (accumulate vr r) n
  = accumulate vr (addPropertiesValueMatches r n).
Proof. unfold addPropertiesValueMatches, accumulate. simpl. now rewrite N.add_assoc. Qed.

Lemma accumulate_setEnumValueMatch (vr r : VR) :
  setEnumValueMatch (accumulate vr r) = accumulate vr (setEnumValueMatch r).
Proof. unfold setEnumValueMatch, accumulate. simpl. now rewrite orb_true_r. Qed.

Lemma accumulate_mergePropertyMatch (vr r child : VR) :
  mergePropertyMatch (accumulate vr r) child = accumulate vr (mergePropertyMatch r child).
Proof.
  unfold mergePropertyMatch, merge, accumulate. simpl.
  destruct (_ || _); simpl; now rewrite !app_assoc, <- ?N.add_assoc.
Qed.

Lemma bind_onResult {A B C} (L : A -> B) (L' : C -> C) (a1 : Result B) (a0 : Result A)
  (k : B -> Result C) (k0 : A -> Result C) :
  a1 = onResult L a0 ->
  (forall a, k (L a) = onResult L' (k0 a)) ->
  bind a1 k = onResult L' (bind a0 k0).
Proof. intros -> Hk. destruct a0; simpl; auto. Qed.

Lemma forEach_onResult {A St} (L : St -> St) (f : A -> St -> Result St) (l : list A) :
  Forall (fun x => forall s, f x (L s) = onResult L (f x s)) l ->
  forall s, forEach f l (L s) = onResult L (forEach f l s).
Proof.
  induction 1 as [|x xs Hx _ IH]; intros s; simpl; [reflexivity|].
  now apply (bind_onResult L L).
Qed.

Lemma forEachIndex_onResult {A St} (L : St -> St) (f : A -> nat -> St -> Result St)
  (l : list A) :
  Forall (fun x => forall i s, f x i (L s) = onResult L (f x i s)) l ->
  forall i s, forEachIndex f i l (L s) = onResult L (forEachIndex f i l s).
Proof.
  induction 1 as [|x xs Hx _ IH]; intros i s; simpl; [reflexivity|].
  now apply (bind_onResult L L).
Qed.

Lemma fold_left_rebase {A St} (L : St -> St) (g : St -> A -> St) (l : list A) :
  (forall s x, g (L s) x = L (g s x)) ->
  forall s, fold_left g l (L s) = L (fold_left g l s).
Proof.
  intros Hg. induction l as [|x xs IH]; intros s; simpl; [reflexivity|].
  now rewrite Hg, IH.
Qed.

Section Methods.

Variable RegExp : string -> option (string -> bool).
Variable v : Validate.
Variable vr : VR.

Lemma rebase_push (this : ASTNode) (m : Message) (st : State) :
  push this m (rebase vr st) = rebase vr (push this m st).
Proof. unfold push, rebase. simpl. now rewrite accumulate_pushWarning. Qed.

Lemma rebase_warning (st : State) (w : IError) :
  mkState (types (rebase vr st)) (pushWarning (result (rebase vr st)) w)
          (trace (rebase vr st))
  = rebase vr (mkState (types st) (pushWarning (result st) w) (trace st)).
Proof. unfold rebase. simpl. now rewrite accumulate_pushWarning. Qed.

Lemma rebase_addValueMatches (n : N) (st : State) :
  addValueMatches n (rebase vr st) = rebase vr (addValueMatches n st).
Proof.
  unfold addValueMatches, rebase. simpl. now rewrite accumulate_addPropertiesValueMatches.
Qed.

Lemma rebase_trace (st : State) (added : list IApplicableSchema) :
  mkState (types (rebase vr st)) (result (rebase vr st))
          (match trace (rebase vr st) with
           | Some l => Some (l ++ added)
           | None => None
           end)
  = rebase vr (mkState (types st) (result st)
                 (match trace st with Some l => Some (l ++ added) | None => None end)).
Proof. reflexivity. Qed.

Lemma rebase_call (sub : Schema) (this : ASTNode) (offset : Z) (st : State) :
  Accumulating v sub ->
  v sub this (result (rebase vr st)) (trace (rebase vr st)) offset (types (rebase vr st))
  = onResult (rebase vr) (v sub this (result st) (trace st) offset (types st)).
Proof. intros Hs. apply Hs. Qed.

Lemma rebase_child (sub : Schema) (child : ASTNode) (offset : Z) (st : State) :
  validateChild v sub child offset (rebase vr st)
  = onResult (rebase vr) (validateChild v sub child offset st).
Proof.
  unfold validateChild. simpl.
  destruct (v sub child new (trace st) offset (types st)) as [s|e]; simpl; [|reflexivity].
  unfold mergeChild, rebase. simpl. now rewrite accumulate_mergePropertyMatch.
Qed.

Lemma rebase_testAlternatives (this : ASTNode) (alternatives : list Schema)
  (maxOneMatch : bool) (st : State) :
  testAlternatives v this alternatives maxOneMatch (rebase vr st)
  = onResult (fun r => (rebase vr (fst r), snd r))
             (testAlternatives v this alternatives maxOneMatch st).
Proof.
  unfold testAlternatives. simpl.
  destruct (forEach _ alternatives (types st, [], None)) as [[[types' matches] best]|e];
    simpl; [|reflexivity].
  destruct best as [best|]; simpl.
  - do 2 f_equal. unfold rebase. simpl. f_equal.
    destruct (_ && _);
      now rewrite ?accumulate_pushWarning, accumulate_merge,
        accumulate_addPropertiesMatches, accumulate_addPropertiesValueMatches.
  - do 2 f_equal. unfold rebase. simpl. f_equal.
    destruct (_ && _); now rewrite ?accumulate_pushWarning.
Qed.

Local Ltac pure_step :=
  lazymatch goal with
  | |- (let x := ?e1 in @?k x) = onResult ?L (let x0 := ?e0 in @?k0 x0) =>
      let H := fresh "E" in
      assert (e1 = L e0) as H;
      [repeat case_match; rewrite ?rebase_push; reflexivity
      |change (k e1 = onResult L (k0 e0)); rewrite H; clear H;
       generalize e0; intro; cbv beta]
  end.

Local Ltac bind_step := eapply (bind_onResult (rebase vr) (rebase vr)).

Lemma ASTNode_validate_accumulates (schema : Schema) (this : ASTNode) (r : VR)
  (ms : option (list IApplicableSchema)) (offset : Z) (types0 : TypeStore) :
  Forall (Accumulating v) (subSchemas schema) ->
  ASTNode_validate v schema this (accumulate vr r) ms offset types0
  = onResult (rebase vr) (ASTNode_validate v schema this r ms offset types0).
Proof.
  intros Hsub. cbv beta delta [ASTNode_validate].
  change (mkState types0 (accumulate vr r) ms) with (rebase vr (mkState types0 r ms)).
  generalize (mkState types0 r ms) as st0. intros st0. cbv zeta.
  destruct (outside this offset); [reflexivity|].
  bind_step.
  { destruct (JsonSchema.allOf schema) as [l|] eqn:E.
    - match goal with |- forEach ?f l ?s1 = onResult _ (forEach _ l ?s0) =>
        assert (s1 = rebase vr s0) as ->
          by (repeat case_match; rewrite ?rebase_push; reflexivity)
      end.
      apply forEach_onResult.
      eapply Forall_impl; [apply (sub_allOf _ _ Hsub _ E)|].
      intros sub Hs s. now apply rebase_call.
    - simpl. f_equal. repeat case_match; rewrite ?rebase_push; reflexivity. }
  intros st1. bind_step.
  { destruct (JsonSchema.not schema) as [sub|] eqn:E; [|reflexivity].
    simpl. destruct (v sub this new (Some []) offset (types st1)) as [s|e];
      simpl; [|reflexivity].
    f_equal. destruct (negb _); [|reflexivity].
    unfold push, rebase. simpl. now rewrite accumulate_pushWarning. }
  intros st2. bind_step.
  { destruct (JsonSchema.anyOf schema) as [l|] eqn:E; [|reflexivity].
    rewrite rebase_testAlternatives.
    destruct (testAlternatives v this l false st2) as [[s n]|e]; reflexivity. }
  intros st3. bind_step.
  { destruct (JsonSchema.oneOf schema) as [l|] eqn:E; [|reflexivity].
    rewrite rebase_testAlternatives.
    destruct (testAlternatives v this l true st3) as [[s n]|e]; reflexivity. }
  intros st4. bind_step.
  { destruct (JsonSchema.enum schema) as [l|] eqn:E; [|reflexivity].
    destruct (getValue this) as [x|e]; simpl; [|reflexivity].
    destruct (notIndexOf l x); simpl; f_equal; [apply rebase_push|].
    unfold rebase. simpl. now rewrite accumulate_setEnumValueMatch. }
  intros st5. reflexivity.
Qed.

Local Ltac start_step :=
  lazymatch goal with
  | |- context [mkState ?ty (accumulate vr ?r) ?ms] =>
      change (mkState ty (accumulate vr r) ms) with (rebase vr (mkState ty r ms))
  end.

Local Ltac pushes := repeat case_match; rewrite ?rebase_push; reflexivity.

Lemma NumberASTNode_validate_accumulates (schema : Schema) (this : ASTNode) (ref : nat)
  (isInteger : bool) (val : JSNumber) (r : VR) (ms : option (list IApplicableSchema))
  (offset : Z) (types0 : TypeStore) :
  Forall (Accumulating v) (subSchemas schema) ->
  NumberASTNode_validate v schema this ref isInteger val (accumulate vr r) ms offset types0
  = onResult (rebase vr)
             (NumberASTNode_validate v schema this ref isInteger val r ms offset types0).
Proof.
  intros Hsub. cbv beta delta [NumberASTNode_validate].
  destruct (outside this offset); [reflexivity|]. cbv zeta.
  bind_step; [now apply ASTNode_validate_accumulates|].
  intros st. simpl. f_equal.
  change (mkState (types st ∖ {[ref]}) (accumulate vr (result st)) (trace st))
    with (rebase vr (mkState (types st ∖ {[ref]}) (result st) (trace st))).
  generalize (mkState (types st ∖ {[ref]}) (result st) (trace st)) as s. intros s.
  repeat case_match; rewrite ?rebase_push; reflexivity.
Qed.

Lemma StringASTNode_validate_accumulates (schema : Schema) (this : ASTNode) (val : string)
  (r : VR) (ms : option (list IApplicableSchema)) (offset : Z) (types0 : TypeStore) :
  Forall (Accumulating v) (subSchemas schema) ->
  StringASTNode_validate RegExp v schema this val (accumulate vr r) ms offset types0
  = onResult (rebase vr)
             (StringASTNode_validate RegExp v schema this val r ms offset types0).
Proof.
  intros Hsub. cbv beta delta [StringASTNode_validate].
  destruct (outside this offset); [reflexivity|].
  bind_step; [now apply ASTNode_validate_accumulates|].
  intros st. cbv zeta.
  repeat case_match; simpl; rewrite ?rebase_push; reflexivity.
Qed.

Lemma ArrayASTNode_validate_accumulates (schema : Schema) (this : ASTNode)
  (items : list ASTNode) (r : VR) (ms : option (list IApplicableSchema)) (offset : Z)
  (types0 : TypeStore) :
  Forall (Accumulating v) (subSchemas schema) ->
  ArrayASTNode_validate v schema this items (accumulate vr r) ms offset types0
  = onResult (rebase vr) (ArrayASTNode_validate v schema this items r ms offset types0).
Proof.
  intros Hsub. cbv beta delta [ArrayASTNode_validate].
  destruct (outside this offset); [reflexivity|].
  bind_step; [now apply ASTNode_validate_accumulates|].
  intros st. bind_step.
  { destruct (JsonSchema.items schema) as [|l|sub] eqn:E; [reflexivity| |].
    - bind_step.
      + apply forEachIndex_onResult. apply Forall_forall. intros sub _ i s.
        destruct (items !! i) as [item|]; [apply rebase_child|].
        destruct (_ <=? _)%nat; [|reflexivity].
        simpl. f_equal. apply rebase_addValueMatches.
      + intros st1. repeat case_match; simpl; f_equal;
          [apply rebase_push|apply rebase_addValueMatches].
    - apply forEach_onResult. apply Forall_forall. intros item _ s.
      apply rebase_child. }
  intros st1. pure_step. pure_step.
  destruct (bool_decide _); [|reflexivity].
  destruct (forEach _ items []) as [values|e]; simpl; [|reflexivity].
  destruct (duplicates values); simpl; f_equal. apply rebase_push.
Qed.

Lemma rebase_processProperty (seenKeys : gmap string (option ASTNode)) (offset : Z)
  (propertyName : string) (prop : Schema) (acc : State * list string) :
  processProperty v seenKeys offset propertyName prop (rebase vr (fst acc), snd acc)
  = onResult (fun acc' => (rebase vr (fst acc'), snd acc'))
             (processProperty v seenKeys offset propertyName prop acc).
Proof.
  destruct acc as [st un]. unfold processProperty. simpl.
  destruct (seen seenKeys propertyName) as [child|]; [|reflexivity].
  rewrite rebase_child.
  destruct (validateChild v prop child offset st); reflexivity.
Qed.

Lemma ObjectASTNode_validate_accumulates (schema : Schema) (this : ASTNode)
  (properties : list Property) (r : VR) (ms : option (list IApplicableSchema))
  (offset : Z) (types0 : TypeStore) :
  Forall (Accumulating v) (subSchemas schema) ->
  ObjectASTNode_validate RegExp v schema this properties (accumulate vr r) ms offset types0
  = onResult (rebase vr)
             (ObjectASTNode_validate RegExp v schema this properties r ms offset types0).
Proof.
  intros Hsub. cbv beta delta [ObjectASTNode_validate].
  destruct (outside this offset); [reflexivity|].
  bind_step; [now apply ASTNode_validate_accumulates|].
  intros st.
  eapply (bind_onResult (fun acc => acc) (rebase vr));
    [destruct (forEach _ properties (∅, [])); reflexivity|].
  intros [seenKeys un].
  lazymatch goal with
  | |- (let x := ?e1 in @?k x) = onResult ?L (let x0 := ?e0 in @?k0 x0) =>
      assert (e1 = L e0) as E;
      [|change (k e1 = onResult L (k0 e0)); rewrite E; clear E;
        generalize e0; intro; cbv beta]
  end.
  { destruct (JsonSchema.required schema); [|reflexivity].
    apply fold_left_rebase. intros s x.
    destruct (seen seenKeys x); [reflexivity|apply rebase_warning]. }
  eapply (bind_onResult (fun acc : State * list string => (rebase vr (fst acc), snd acc))
                        (rebase vr)).
  { destruct (JsonSchema.properties schema) as [l|] eqn:E; [|reflexivity].
    lazymatch goal with |- forEach ?f l _ = _ =>
      refine (forEach_onResult
                (fun acc : State * list string => (rebase vr (fst acc), snd acc))
                f l _ (s, un))
    end.
    apply Forall_forall. intros [k prop] _ acc. apply rebase_processProperty. }
  intros [st2 un2]. cbv beta iota delta [fst snd].
  eapply (bind_onResult (fun acc : State * list string => (rebase vr (fst acc), snd acc))
                        (rebase vr)).
  { destruct (JsonSchema.patternProperties schema) as [l|] eqn:E; [|reflexivity].
    lazymatch goal with |- forEach ?f l _ = _ =>
      refine (forEach_onResult
                (fun acc : State * list string => (rebase vr (fst acc), snd acc))
                f l _ (st2, un2))
    end.
    apply Forall_forall. intros [pat prop] _ [st' un']. cbv beta iota delta [fst snd].
    destruct (RegExp pat) as [test|]; [|reflexivity].
    lazymatch goal with |- forEach ?f un' _ = _ =>
      refine (forEach_onResult
                (fun acc : State * list string => (rebase vr (fst acc), snd acc))
                f un' _ (st', un'))
    end.
    apply Forall_forall. intros k _ acc.
    destruct (test k); [apply rebase_processProperty|reflexivity]. }
  intros [st3 un3]. cbv beta iota delta [fst snd].
  bind_step.
  { destruct (JsonSchema.additionalProperties schema) as [| |sub] eqn:E; [reflexivity| |].
    - apply forEach_onResult. apply Forall_forall. intros k _ s'.
      destruct (seen seenKeys k) as [child|]; [|reflexivity].
      destruct (parent child) as [|[keyRange|]]; try reflexivity.
      simpl. f_equal. apply rebase_warning.
    - apply forEach_onResult. apply Forall_forall. intros k _ s'.
      destruct (seen seenKeys k) as [child|]; [apply rebase_child|reflexivity]. }
  intros st4. pure_step. pure_step.
  destruct (JsonSchema.dependencies schema) as [l|] eqn:E; [|reflexivity].
  apply forEach_onResult. apply Forall_forall. intros [k d] _ s'.
  destruct (seen seenKeys k); [|reflexivity].
  destruct d as [|names|sub]; [reflexivity| |apply rebase_child].
  simpl. f_equal. apply fold_left_rebase. intros s'' x.
  destruct (seen seenKeys x); [apply rebase_addValueMatches|apply rebase_push].
Qed.

End Methods.

Lemma validate_accumulating (RegExp : string -> option (string -> bool)) (schema : Schema) :
  Accumulating (validate RegExp) schema.
Proof.
  induction schema as [schema IH] using Schema_sub_ind.
  intros this.
  induction this as [node Hleaf|f items _|p IHp|f props _] using ASTNode_owned_ind;
    intros vr r ms offset types0; rewrite !validate_unfold.
  - destruct node as [f|f b|f ref i n|s|f items|p|f props].
    + now apply ASTNode_validate_accumulates.
    + now apply ASTNode_validate_accumulates.
    + now apply NumberASTNode_validate_accumulates.
    + now apply StringASTNode_validate_accumulates.
    + now apply ArrayASTNode_validate_accumulates.
    + simpl in Hleaf. destruct (value p); discriminate.
    + now apply ObjectASTNode_validate_accumulates.
  - now apply ArrayASTNode_validate_accumulates.
  - destruct (outside _ _); [reflexivity|].
    destruct (value p) as [c|] eqn:Ec; [|reflexivity].
    apply (IHp c eq_refl).
  - now apply ObjectASTNode_validate_accumulates.
Qed.

(** X18. [validate] never reads the result it is given: validating into a
    result that already holds [vr] does what validating into a fresh
    result does -- the same exception, or the same [type] fields and
    trace -- and hands back [vr] with the warnings of the fresh run
    appended, its counters added and its enum match kept or set. *)
Theorem validate_accumulates (RegExp : string -> option (string -> bool))
  (schema : Schema) (this : ASTNode) (vr : VR) (ms : option (list IApplicableSchema))
  (offset : Z) (types0 : TypeStore) :
  validate RegExp schema this vr ms offset types0
  = onResult (rebase vr) (validate RegExp schema this new ms offset types0).
Proof.
  rewrite <- (accumulate_new vr) at 1. apply validate_accumulating.
Qed.

End Accumulation.

(** ** The bound a length warning reports *)

Section ItemLimits.
Import ValidationResult.

Variable RegExp : string -> option (string -> bool).

(** X19. An array longer than a truthy [maxItems] allows is warned about with
    the bound of [minItems] as the argument of the message, not that of
    [maxItems]: the bound that was exceeded is not reported. *)
Theorem maxItems_reports_minItems (f : NodeFields) (items : list ASTNode)
  (lo hi : option JSNumber) (vr : VR) :
  whenTruthy hi (fun n => numLt n (lengthOf items)) = true ->
  whenTruthy lo (fun n => numLt (lengthOf items) n) = false ->
  validate RegExp (limits None None lo hi None None) (ArrayASTNode f items) vr None (-1) ∅
  = Ok (mkState ∅
          (pushWarning vr (warning (f_start f) (f_end f)
                                   (localize "maxItemsWarning" [ArgNumber lo])))
          None).
Proof.
  intros Hhi Hlo. rewrite validate_unfold.
  unfold ArrayASTNode_validate, ASTNode_validate, outside.
  cbn -[whenTruthy lengthOf numLt]. rewrite Hlo, Hhi. reflexivity.
Qed.

End ItemLimits.

(** ** The further properties on the sample inputs *)

Section MoreSamples.
Import Sample.

(** On [{k: v}], the offset at the right bound of the value. *)
Lemma getNodeFromOffsetEndInclusive_deepest_witness :
  invariant document = true
  /\ getNodeFromOffsetEndInclusive document 10 = Ok (Some valueV)
  /\ contains valueV 10 true = true
  /\ forall child, Some child ∈ getChildNodes valueV -> spans 10 child = false.
Proof.
  split; [reflexivity|]. split; [reflexivity|].
  apply (getNodeFromOffsetEndInclusive_deepest 10 document valueV); reflexivity.
Defined.

Lemma visit_preorder_witness :
  complete document = true
  /\ visit Case.count document 0%nat = Ok (true, 4%nat).
Proof.
  split; [reflexivity|].
  exact (visit_preorder Case.count document eq_refl 0%nat).
Defined.

Lemma visit_stops_at_valueless_property_witness :
  key Case.bare = Some keyK
  /\ value Case.bare = None
  /\ visit Case.count (ObjectASTNode (at_ 0 20 NoParent) [Case.bare; entry]) 0%nat
     = Ok (false, 3%nat).
Proof.
  split; [reflexivity|]. split; [reflexivity|].
  exact (visit_stops_at_valueless_property Case.count (at_ 0 20 NoParent) Case.bare
           [entry] keyK 0%nat eq_refl eq_refl).
Defined.

Lemma getFirstProperty_first_witness :
  hasKeys [Case.bare; entry] = true
  /\ exists keys,
       getKeyList [Case.bare; entry] = Ok keys
       /\ Forall2 (fun p k' => s_value <$> key p = Some k') [Case.bare; entry] keys
       /\ length keys = length [Case.bare; entry]
       /\ match getFirstProperty [Case.bare; entry] "k" with
          | Ok None => "k"%string ∉ keys
          | Ok (Some p) =>
              (s_value <$> key p) = Some "k"%string
              /\ exists i, [Case.bare; entry] !! i = Some p /\ keys !! i = Some "k"%string
                           /\ forall j, (j < i)%nat -> keys !! j <> Some "k"%string
          | Throw _ => False
          end.
Proof.
  split; [reflexivity|].
  apply (getFirstProperty_first [Case.bare; entry] "k"). reflexivity.
Defined.

Lemma getFirstProperty_addProperty_witness :
  key entry = Some keyK
  /\ getFirstProperty (fst (addProperty [Case.bare] (Obj entry))) "k" = Ok (Some Case.bare)
  /\ getFirstProperty (fst (addProperty [] (Obj entry))) "k" = Ok (Some entry).
Proof.
  split; [reflexivity|]. split.
  - exact (getFirstProperty_addProperty [Case.bare] entry keyK "k" eq_refl).
  - exact (getFirstProperty_addProperty [] entry keyK "k" eq_refl).
Defined.

Lemma built_property_hides_value_witness :
  exists p,
    setValue (fst (setKey (newProperty (ParentNode None)) (Obj keyK))) (Obj valueV)
    = Ok (p, true)
    /\ exists k',
         key p = Some k'
         /\ getNodeFromOffset (PropertyASTNode p) 7
            = Ok (if contains (StringASTNode k') 7 false
                  then Some (StringASTNode k') else None).
Proof.
  eexists. split; [reflexivity|].
  apply (built_property_hides_value (ParentNode None) keyK valueV _ 7). reflexivity.
Defined.

Lemma validate_only_adds_witness :
  exists st,
    run (typed "integer") letter (-1) = Ok st
    /\ ValidationResult.errors (result st) = []
    /\ (exists added, ValidationResult.warnings (result st) = [] ++ added)
    /\ (0 <= ValidationResult.propertiesMatches (result st))%N
    /\ (0 <= ValidationResult.propertiesValueMatches (result st))%N
    /\ (false = true -> ValidationResult.enumValueMatch (result st) = true)
    /\ traceGrows None (trace st).
Proof.
  eexists. split; [vm_compute; reflexivity|].
  apply (validate_only_adds RegExp (typed "integer") letter ValidationResult.new None
                            (-1) ∅).
  vm_compute. reflexivity.
Defined.

Lemma empty_schema_accepts_witness :
  attached document = true
  /\ exists ms', validate RegExp JsonSchema.empty document ValidationResult.new
                          (Some []) 7 ∅
                 = Ok (mkState ∅ ValidationResult.new ms').
Proof.
  split; [reflexivity|].
  apply (empty_schema_accepts RegExp document ValidationResult.new (Some []) 7).
  reflexivity.
Defined.

Lemma required_warnings_witness :
  hasKeys [entry] = true
  /\ plainKeys [entry] = true
  /\ ownNames ["k"; "z"]%string = true
  /\ validate RegExp (requiredOnly ["k"; "z"]%string) document ValidationResult.new
              None (-1) ∅
     = Ok (mkState ∅
             (ValidationResult.mk [] [missingProperty document "z"] 0 0 false) None).
Proof.
  split; [reflexivity|]. split; [reflexivity|]. split; [reflexivity|].
  exact (required_warnings RegExp (at_ 0 20 NoParent) [entry] ["k"; "z"]%string
                           ValidationResult.new eq_refl eq_refl eq_refl).
Defined.

Lemma getValue_object_witness :
  getValue document = Ok (VObject [("k"%string, VString "v")])
  /\ exists obj,
       VObject [("k"%string, VString "v")] = VObject obj
       /\ NoDup obj.*1
       /\ forall k x, (k, x) ∈ obj ->
            truthy x = true
            /\ exists p kp n, p ∈ [entry] /\ key p = Some kp /\ s_value kp = k
                              /\ value p = Some n /\ getValue n = Ok x.
Proof.
  split; [reflexivity|].
  apply (getValue_object (at_ 0 20 NoParent) [entry]). reflexivity.
Defined.

Lemma maxItems_reports_minItems_witness :
  whenTruthy (Some (ofZ 1)) (fun n => numLt n (lengthOf [letter; five])) = true
  /\ whenTruthy None (fun n => numLt (lengthOf [letter; five]) n) = false
  /\ validate RegExp (limits None None None (Some (ofZ 1)) None None) pair
              ValidationResult.new None (-1) ∅
     = Ok (mkState ∅
             (ValidationResult.pushWarning ValidationResult.new
                (warning 0 10 (localize "maxItemsWarning" [ArgNumber None])))
             None).
Proof.
  split; [reflexivity|]. split; [reflexivity|].
  apply (maxItems_reports_minItems RegExp (at_ 0 10 NoParent) [letter; five] None
                                   (Some (ofZ 1)) ValidationResult.new);
    reflexivity.
Defined.

End MoreSamples.

(** ** The steps of a call *)

Section Closed.
Import ValidationResult.

Lemma Grown_refl (st : State) : Grown (result st) (trace st) st.
Proof. split; [apply grows_refl|apply traceGrows_refl]. Qed.


Variable RegExp : string -> option (string -> bool).
Variable v : Validate.

(** A property of states kept by whatever only adds to result and trace. *)
Variable J : State -> Prop.
Hypothesis J_grown : forall st st', J st -> Grown (result st) (trace st) st' -> J st'.


Lemma J_push (this : ASTNode) (m : Message) (st : State) : J st -> J (push this m st).
Proof. intros H. eapply J_grown; [exact H|]. apply Grown_push, Grown_refl. Qed.










Local Ltac pure_step H :=
  let st := fresh "st" in
  lazymatch goal with
  | |- Holds ?B ?Q (let x := ?e in @?k x) => change (let x := e in Holds B Q (k x))
  end;
  intro st; cbv beta;
  assert (J st) as H by (subst st; repeat case_match; auto using J_push);
  clearbody st.

Local Ltac bind_step := eapply (Holds_bind True J).





End Closed.

Section Steps.
Import ValidationResult.

Variable RegExp : string -> option (string -> bool).
Variable v : Validate.



End Steps.

Section Calls.
Import ValidationResult.

Variable RegExp : string -> option (string -> bool).





End Calls.

Section StepSamples.
Import Sample.



(** X13, on the integer [5] while its [type] field reads ['integer']. *)
Lemma number_types_witness :
  validate RegExp (typed "number") five ValidationResult.new None (-1) {[0%nat]}
  = Ok (mkState ({[0%nat]} ∖ {[0%nat]})
          (ValidationResult.pushWarning ValidationResult.new (typeMismatch 5 7 "number"))
          None).
Proof.
  exact (proj1 (number_types RegExp (at_ 5 7 (ParentNode None)) 0 true (ofZ 5)
                             ValidationResult.new None (-1) {[0%nat]})).
Defined.

End StepSamples.
